(** * NitroShare: the upload lifecycle and retention engine of [server.js]

    A shallow embedding of the Express server of the repository.  Every
    route handler is a function from the upload store (the contents of the
    [uploads] directory) to a reply and a new store.  The pieces of Node and
    of the libraries the server calls ([path], [Date], [fs], multer) are
    written out as far as the handlers use them.

    Strings are byte strings: [toLowerCase] and the character classes of the
    regular expressions act on ASCII, the alphabet of every literal in the
    source. *)

From Stdlib Require Import ZArith Lia Ascii String.
From stdpp Require Import gmap strings list fin_maps sorting.

Local Open Scope Z_scope.

(** ** Strings of JavaScript, as far as the server uses them *)

Module Js.

Definition slash : ascii := "/"%char.
Definition dot : ascii := "."%char.

(** [s.length] *)
Fixpoint length (s : string) : nat :=
  match s with
  | "" => 0%nat
  | String _ r => S (length r)
  end.

(** Apply a function to every character: the shape of [toLowerCase] and of
    [replace] with a global one-character pattern. *)
Fixpoint map_chars (f : ascii → ascii) (s : string) : string :=
  match s with
  | "" => ""
  | String c r => String (f c) (map_chars f r)
  end.

Fixpoint all_chars (p : ascii → bool) (s : string) : bool :=
  match s with
  | "" => true
  | String c r => p c && all_chars p r
  end.

Definition is_upper (c : ascii) : bool :=
  let n := nat_of_ascii c in (65 <=? n)%nat && (n <=? 90)%nat.
Definition is_lower (c : ascii) : bool :=
  let n := nat_of_ascii c in (97 <=? n)%nat && (n <=? 122)%nat.
Definition is_digit (c : ascii) : bool :=
  let n := nat_of_ascii c in (48 <=? n)%nat && (n <=? 57)%nat.

(** [/[a-zA-Z0-9]/] *)
Definition is_alnum (c : ascii) : bool := is_lower c || is_upper c || is_digit c.

Definition lower_char (c : ascii) : ascii :=
  if is_upper c then ascii_of_nat (nat_of_ascii c + 32) else c.

(** [s.toLowerCase()] *)
Definition toLowerCase (s : string) : string := map_chars lower_char s.

(** [s.startsWith(p)] *)
Fixpoint startsWith (p s : string) : bool :=
  match p, s with
  | "", _ => true
  | String a p', String b s' => bool_decide (a = b) && startsWith p' s'
  | String _ _, "" => false
  end.

(** [arr.includes(x)] on an array of strings *)
Definition includes (arr : list string) (x : string) : bool :=
  bool_decide (x ∈ arr).

(** [s.split(sep)] for a one-character separator: always at least one
    piece, and the pieces between two separators may be empty. *)
Fixpoint split (sep : ascii) (s : string) : list string :=
  match s with
  | "" => [""]
  | String c r =>
      if bool_decide (c = sep) then "" :: split sep r
      else match split sep r with
           | h :: t => String c h :: t
           | [] => [String c ""]
           end
  end.

(** [arr.join(sep)] *)
Fixpoint join (sep : string) (arr : list string) : string :=
  match arr with
  | [] => ""
  | [x] => x
  | x :: r => x +:+ sep +:+ join sep r
  end.

Fixpoint drop_spaces (s : string) : string :=
  match s with
  | "" => ""
  | String c r => if Ascii.is_space c then drop_spaces r else s
  end.

(** [s.trim()] *)
Definition trim (s : string) : string :=
  String.rev (drop_spaces (String.rev (drop_spaces s))).

(** [s.endsWith('/')] *)
Fixpoint ends_with_slash (s : string) : bool :=
  match s with
  | "" => false
  | String c "" => bool_decide (c = slash)
  | String _ r => ends_with_slash r
  end.

End Js.

(** ** Node's [path] module (POSIX flavour) *)

Module Path.

(** One pass of [normalizeString] over the pieces between the separators:
    empty pieces and [.] vanish, [..] removes the piece before it, and where
    there is none it stays in a relative path.  The result is kept in
    reverse. *)
Fixpoint normalize_pieces (allowAboveRoot : bool) (pieces : list string)
    (res : list string) : list string :=
  match pieces with
  | [] => res
  | p :: rest =>
      if bool_decide (p = "") || bool_decide (p = ".") then
        normalize_pieces allowAboveRoot rest res
      else if bool_decide (p = "..") then
        match res with
        | last :: before =>
            if bool_decide (last = "..")
            then normalize_pieces allowAboveRoot rest (".." :: res)
            else normalize_pieces allowAboveRoot rest before
        | [] =>
            if allowAboveRoot
            then normalize_pieces allowAboveRoot rest [".."]
            else normalize_pieces allowAboveRoot rest []
        end
      else normalize_pieces allowAboveRoot rest (p :: res)
  end.

(** [path.normalize(p)] *)
Definition normalize (p : string) : string :=
  if bool_decide (p = "") then "."
  else
    let isAbsolute := Js.startsWith "/" p in
    let trailingSeparator := Js.ends_with_slash p in
    let body :=
      Js.join "/" (reverse (normalize_pieces (negb isAbsolute) (Js.split Js.slash p) [])) in
    if bool_decide (body = "") then
      if isAbsolute then "/" else if trailingSeparator then "./" else "."
    else
      (if isAbsolute then "/" else "") +:+ body +:+
      (if trailingSeparator then "/" else "").

(** [path.join(...args)]: the non-empty arguments joined by the separator,
    then normalised. *)
Definition join (args : list string) : string :=
  normalize (Js.join "/" (filter (λ a, a ≠ "") args)).

(** The last portion of a path: trailing separators are dropped first. *)
Definition basename (p : string) : string :=
  match filter (λ a, a ≠ "") (reverse (Js.split Js.slash p)) with
  | b :: _ => b
  | [] => ""
  end.

(** The part of a name from its last dot on, if it has a dot. *)
Fixpoint from_last_dot (s : string) : option string :=
  match s with
  | "" => None
  | String c r =>
      match from_last_dot r with
      | Some e => Some e
      | None => if bool_decide (c = Js.dot) then Some s else None
      end
  end.

(** [path.extname(p)]: from the last dot of the last portion to its end;
    empty when there is no dot, when the only dot opens the portion, and for
    the portion [..]. *)
Definition extname (p : string) : string :=
  let b := basename p in
  match from_last_dot b with
  | None => ""
  | Some e =>
      if bool_decide (e = b) || bool_decide (b = "..") then "" else e
  end.

End Path.


(** ** [Date]: milliseconds since the epoch and their ISO-8601 rendering *)

Module Date.

Definition digit (d : Z) : ascii := ascii_of_nat (48 + Z.to_nat d).

(** The [w] low decimal digits of [n], most significant first. *)
Fixpoint pad (w : nat) (n : Z) : string :=
  match w with
  | O => ""
  | S w' => pad w' (n / 10) +:+ String (digit (n mod 10)) ""
  end.

(** Days since the epoch to a civil date of the proleptic Gregorian
    calendar. *)
Definition civil_from_days (z : Z) : Z * Z * Z :=
  let z := z + 719468 in
  let era := z / 146097 in
  let doe := z - era * 146097 in
  let yoe := (doe - doe / 1460 + doe / 36524 - doe / 146096) / 365 in
  let doy := doe - (365 * yoe + yoe / 4 - yoe / 100) in
  let mp := (5 * doy + 2) / 153 in
  let d := doy - (153 * mp + 2) / 5 + 1 in
  let m := if mp <? 10 then mp + 3 else mp - 9 in
  let y := yoe + era * 400 in
  (if m <=? 2 then y + 1 else y, m, d).

Definition year_string (y : Z) : string :=
  if (0 <=? y) && (y <=? 9999) then pad 4 y
  else (if y <? 0 then "-" else "+") +:+ pad 6 (Z.abs y).

(** Date and time down to the second: [YYYY-MM-DDTHH:mm:ss]. *)
Definition seconds_string (secs : Z) : string :=
  let '(y, m, d) := civil_from_days (secs / 86400) in
  let t := secs mod 86400 in
  year_string y +:+ "-" +:+ pad 2 m +:+ "-" +:+ pad 2 d +:+ "T" +:+
  pad 2 (t / 3600) +:+ ":" +:+ pad 2 (t / 60 mod 60) +:+ ":" +:+ pad 2 (t mod 60).

(** [new Date(ms).toISOString()] *)
Definition toISOString (ms : Z) : string :=
  seconds_string (ms / 1000) +:+ "." +:+ pad 3 (ms mod 1000) +:+ "Z".

End Date.

(** ** The upload store and the [fs] calls made on it *)

(** What [fs.Stats] tells about an entry. *)
Record meta := Meta { birthtime : Z; size : Z }.

(** An entry of the [uploads] directory: a stray regular file, or a
    directory with the regular files it holds.  The server itself creates
    only partition directories there and only regular files inside them. *)
Inductive node :=
| File (m : meta)
| Dir (m : meta) (entries : gmap string meta).

(** The contents of [uploads], by name. *)
Abbreviation store := (gmap string node).

(** Where a path leads.  [Outside] is everything that is not under
    [uploads]; [Beyond] is a path that continues below a regular file of a
    partition, where nothing can exist. *)
Inductive location :=
| Outside
| Root
| Top (k : string)
| Entry (k f : string)
| Beyond.

(** A name a directory entry can have. *)
Definition is_name (s : string) : bool :=
  negb (bool_decide (s = "")) && negb (bool_decide (s = ".")) &&
  negb (bool_decide (s = "..")) &&
  Js.all_chars (λ c, negb (bool_decide (c = Js.slash))) s.

(** The server's directory, written from the working directory: the
    process is started inside it, so [uploads] and
    [path.join(__dirname, 'uploads')] name the same directory. *)
Definition __dirname : string := ".".

(** Resolution of a path handed to [fs].  A trailing separator asks for a
    directory; that is the boolean. *)
Definition locate (p : string) : location * bool :=
  match Js.split Js.slash p with
  | first :: pieces =>
      if bool_decide (first = "uploads") then
        let dir_only := bool_decide (last pieces = Some "") in
        let names := if dir_only then removelast pieces else pieces in
        if forallb is_name names then
          (match names with
           | [] => Root
           | [k] => Top k
           | [k; f] => Entry k f
           | _ => Beyond
           end, dir_only)
        else (Outside, false)
      else (Outside, false)
  | [] => (Outside, false)
  end.

(** The outcome of a computation on the store: a value, a thrown
    exception, or a step that left the [uploads] tree, about which this
    model says nothing. *)
Inductive res (A : Type) : Type :=
| Ok (a : A)
| Throw
| Unmodelled.
Arguments Ok {A} a.
Arguments Throw {A}.
Arguments Unmodelled {A}.

(** Computations read the clock and thread the store. *)
Definition M (A : Type) : Type := Z → store → res A * store.

Definition ret {A} (a : A) : M A := λ _ s, (Ok a, s).

Definition bind {A B} (m : M A) (k : A → M B) : M B :=
  λ now s,
    match m now s with
    | (Ok a, s') => k a now s'
    | (Throw, s') => (Throw, s')
    | (Unmodelled, s') => (Unmodelled, s')
    end.

#[global] Instance M_ret : MRet M := @ret.
#[global] Instance M_bind : MBind M := λ A B k m, bind m k.

(** [Date.now()] *)
Definition clock : M Z := λ now s, (Ok now, s).

(** [try { m } catch { }], and the [err] argument of a callback: the
    exception becomes a value. *)
Definition try {A} (m : M A) : M (option A) :=
  λ now s,
    match m now s with
    | (Ok a, s') => (Ok (Some a), s')
    | (Throw, s') => (Ok None, s')
    | (Unmodelled, s') => (Unmodelled, s')
    end.

(** [arr.forEach(f)] *)
Fixpoint forEach {A} (arr : list A) (f : A → M unit) : M unit :=
  match arr with
  | [] => ret tt
  | x :: rest => f x ;; forEach rest f
  end.

Module Fs.

Record Stats := { isDirectory : bool; info : meta }.

Definition node_stats (n : node) : Stats :=
  match n with
  | File m => {| isDirectory := false; info := m |}
  | Dir m _ => {| isDirectory := true; info := m |}
  end.

(** The entry a location holds, if any. *)
Definition lookup_stats (s : store) (l : location * bool) : option Stats :=
  match l with
  | (Top k, dir_only) =>
      match s !! k with
      | Some n =>
          if dir_only && negb (isDirectory (node_stats n)) then None
          else Some (node_stats n)
      | None => None
      end
  | (Entry k f, false) =>
      match s !! k with
      | Some (Dir _ es) => (λ m, {| isDirectory := false; info := m |}) <$> es !! f
      | _ => None
      end
  | _ => None
  end.

(** [fs.existsSync(p)] *)
Definition existsSync (p : string) : M bool :=
  λ _ s,
    match locate p with
    | (Outside, _) => (Unmodelled, s)
    | (Root, _) => (Ok true, s)
    | l => (Ok (bool_decide (is_Some (lookup_stats s l))), s)
    end.

(** [fs.statSync(p)] and [fs.stat(p, cb)]: throws where nothing exists. *)
Definition stat (p : string) : M Stats :=
  λ _ s,
    match locate p with
    | (Outside, _) | (Root, _) => (Unmodelled, s)
    | l => match lookup_stats s l with
           | Some st => (Ok st, s)
           | None => (Throw, s)
           end
    end.

(** [fs.readdir(p, cb)]: the names in a directory. *)
Definition readdir (p : string) : M (list string) :=
  λ _ s,
    match locate p with
    | (Outside, _) => (Unmodelled, s)
    | (Root, _) => (Ok (map_to_list s).*1, s)
    | (Top k, _) =>
        match s !! k with
        | Some (Dir _ es) => (Ok (map_to_list es).*1, s)
        | _ => (Throw, s)
        end
    | _ => (Throw, s)
    end.

(** [fs.ensureDirSync(p)] of fs-extra: [mkdir -p], which throws when a
    regular file is in the way. *)
Definition ensureDirSync (p : string) : M unit :=
  λ now s,
    match locate p with
    | (Outside, _) => (Unmodelled, s)
    | (Root, _) => (Ok tt, s)
    | (Top k, _) =>
        match s !! k with
        | Some (Dir _ _) => (Ok tt, s)
        | Some (File _) => (Throw, s)
        | None => (Ok tt, <[k := Dir {| birthtime := now; size := 4096 |} ∅]> s)
        end
    | (Entry k f, _) =>
        match s !! k with
        | Some (Dir _ es) =>
            match es !! f with
            | Some _ => (Throw, s)
            | None => (Unmodelled, s)
            end
        | Some (File _) => (Throw, s)
        | None => (Unmodelled, s)
        end
    | (Beyond, _) => (Unmodelled, s)
    end.

(** [fs.remove(p, cb)] of fs-extra and [fs.unlink(p, cb)]: the entry and all
    below it go; removing what is not there succeeds. *)
Definition remove (p : string) : M unit :=
  λ _ s,
    match locate p with
    | (Outside, _) | (Root, _) => (Unmodelled, s)
    | (Top k, dir_only) =>
        match lookup_stats s (Top k, dir_only) with
        | Some _ => (Ok tt, delete k s)
        | None => (Ok tt, s)
        end
    | (Entry k f, false) =>
        (Ok tt, alter (λ n, match n with
                            | Dir m es => Dir m (delete f es)
                            | File m => File m
                            end) k s)
    | _ => (Ok tt, s)
    end.

(** The end of [fs.createWriteStream(p)] with [n] bytes piped into it: the
    file is created, or truncated and rewritten when it is already there
    (it keeps its birth time then). *)
Definition writeFile (p : string) (n : Z) : M unit :=
  λ now s,
    match locate p with
    | (Outside, _) | (Root, _) => (Unmodelled, s)
    | (Top k, false) =>
        match s !! k with
        | Some (Dir _ _) => (Throw, s)
        | Some (File m) => (Ok tt, <[k := File {| birthtime := birthtime m; size := n |}]> s)
        | None => (Ok tt, <[k := File {| birthtime := now; size := n |}]> s)
        end
    | (Entry k f, false) =>
        match s !! k with
        | Some (Dir m es) =>
            let born := match es !! f with
                        | Some old => birthtime old
                        | None => now
                        end in
            (Ok tt, <[k := Dir m (<[f := {| birthtime := born; size := n |}]> es)]> s)
        | _ => (Throw, s)
        end
    | _ => (Throw, s)
    end.

End Fs.

(** ** multer: one file field, disk storage, a size limit *)

Module Multer.

(** A file part of a multipart body; [bytes] is the length of its stream. *)
Record file_part := {
  fieldname : string;
  originalname : string;
  mimetype : string;
  bytes : Z
}.

(** What the file filter tells its callback. *)
Inductive verdict :=
| Accept
| Reject (message : string).

Inductive upload_error :=
| MulterError (code : string) (message : string)
| OtherError (message : string).

(** [req.file] *)
Record uploaded := {
  file_filename : string;
  file_path : string;
  file_size : Z
}.

(** [multer.diskStorage({ destination, filename })]; [R] stands for the
    request the two callbacks receive. *)
Record disk_storage (R : Type) := {
  destination : R → file_part → M string;
  filename : R → file_part → M string
}.
Arguments destination {R} _ _ _.
Arguments filename {R} _ _ _.

Record limits := { fileSize : Z }.

Record options (R : Type) := {
  storage : disk_storage R;
  upload_limits : limits;
  fileFilter : file_part → verdict
}.
Arguments storage {R} _.
Arguments upload_limits {R} _.
Arguments fileFilter {R} _ _.

(** The text of a system error, which the store does not track. *)
Definition system_error : string := "EIO: i/o error".

(** [multer(options).single(field)] on a body with at most one file part.
    A part without a file name is skipped.  A part in another field is
    refused before the filter is asked.  An accepted part is streamed to
    [destination/filename]; when the stream is longer than [fileSize] the
    write stops there, the limit error is raised and the file written so far
    is unlinked before the error is handed on.  A stream of exactly
    [fileSize] bytes is taken to fit, as busboy did before its version 1;
    no claim below turns on that length. *)
Definition single {R} (o : options R) (field : string) (req : R)
    (part : option file_part) : M (option upload_error * option uploaded) :=
  match part with
  | None => mret (None, None)
  | Some file =>
      if bool_decide (originalname file = "") then mret (None, None)
      else if negb (bool_decide (fieldname file = field)) then
        mret (Some (MulterError "LIMIT_UNEXPECTED_FILE" "Unexpected field"), None)
      else
        match fileFilter o file with
        | Reject message => mret (Some (OtherError message), None)
        | Accept =>
            dest ← destination (storage o) req file;
            name ← filename (storage o) req file;
            let finalPath := Path.join [dest; name] in
            let limit := fileSize (upload_limits o) in
            if limit <? bytes file then
              try (Fs.writeFile finalPath limit);;
              try (Fs.remove finalPath);;
              mret (Some (MulterError "LIMIT_FILE_SIZE" "File too large"), None)
            else
              written ← try (Fs.writeFile finalPath (bytes file));
              match written with
              | None => mret (Some (OtherError system_error), None)
              | Some _ =>
                  mret (None, Some {| file_filename := name; file_path := finalPath;
                                      file_size := bytes file |})
              end
        end
  end.

End Multer.

(** ** The server *)

Import Multer.

(** The profile an identity provider returns; only [email] is read. *)
Record payload := { email : option string }.

(** [client.verifyIdToken]: it throws, or gives a ticket whose payload may
    be missing. *)
Inductive ticket :=
| VerifyThrows
| Ticket (p : option payload).

(** [response.json()]: it throws, or gives a value that may not be an
    object. *)
Inductive json_result :=
| JsonThrows
| JsonValue (p : option payload).

(** [fetch] of the provider's userinfo endpoint. *)
Inductive fetched :=
| FetchThrows
| Response (ok : bool) (json : json_result).

(** The process environment and the identity provider. *)
Record config := {
  verifyIdToken : string → ticket;
  userinfo : string → fetched;
  ALLOWED_EMAILS : option string;
  NODE_ENV : option string
}.

Record request := {
  authorization : option string;
  x_forwarded_proto : option string;
  protocol : string;
  host : option string;
  file : option file_part
}.

(** One element of the catalog. *)
Record video := {
  v_filename : string;
  uploadTime : Z;
  v_size : Z;
  videoUrl : string;
  shareUrl : string
}.

Inductive body :=
| StatusBody
| ErrorBody (error : string)
| DeniedBody (error : string) (userEmail : option string)
| UploadedBody (message fname vUrl sUrl upTime : string)
| VideosBody (videos : list video)
| MessageBody (message : string)
| SendBody (text : string).

Record reply := { status : Z; content : body }.

(** [res.sendStatus(code)] *)
Definition sendStatus (code : Z) : reply := {| status := code; content := StatusBody |}.
(** [res.status(code).json(...)] and [res.json(...)] *)
Definition json (code : Z) (b : body) : reply := {| status := code; content := b |}.

(** [userEmail.replace(/[^a-zA-Z0-9]/g, '_')] *)
Definition safe_email (userEmail : string) : string :=
  Js.map_chars (λ c, if Js.is_alnum c then c else "_"%char) userEmail.

Definition getUserDirectory (userEmail : string) : M string :=
  let safeEmail := safe_email userEmail in
  let userDir := Path.join ["uploads"; safeEmail] in
  Fs.ensureDirSync userDir;;
  mret userDir.

Definition allowedExtensions : list string :=
  [".mp4"; ".avi"; ".mov"; ".wmv"; ".flv"; ".webm"; ".mkv"; ".m4v"; ".3gp"].

Definition allowedMimeTypes : list string :=
  ["video/mp4"; "video/avi"; "video/quicktime"; "video/x-msvideo"; "video/x-flv";
   "video/webm"; "video/x-matroska"; "video/3gpp"; "video/x-m4v";
   "video/mp4v-es"; "video/x-mp4"; "video/h264"].

Definition videoFileFilter (file : file_part) : verdict :=
  let filename := Js.toLowerCase (originalname file) in
  let extension := Path.extname filename in
  let hasValidExtension := Js.includes allowedExtensions extension in
  let hasValidMimeType :=
    Js.includes allowedMimeTypes (mimetype file) ||
    Js.startsWith "video/" (mimetype file) ||
    (bool_decide (mimetype file = "application/octet-stream") && hasValidExtension) in
  if hasValidExtension || hasValidMimeType then Accept
  else Reject ("Only video files are allowed. Detected type: " +:+ mimetype file +:+
               ", extension: " +:+ extension).

(** [s.replace(/[:.-]/g, '_')] *)
Definition replace_unsafe (s : string) : string :=
  Js.map_chars (λ c, if bool_decide (c = ":"%char) || bool_decide (c = "."%char) ||
                        bool_decide (c = "-"%char) then "_"%char else c) s.

(** [req.user.email], which throws when there is no user email to read a
    property of. *)
Definition user_email (user : payload) : M string :=
  match email user with
  | Some e => mret e
  | None => λ _ s, (Throw, s)
  end.

Definition storage : disk_storage payload :=
  {| destination := λ user file, e ← user_email user; getUserDirectory e;
     filename := λ user file,
       now ← clock;
       let timestamp := replace_unsafe (Date.toISOString now) in
       let extension := Path.extname (originalname file) in
       mret (timestamp +:+ extension) |}.

Definition upload : options payload :=
  {| Multer.storage := storage;
     upload_limits := {| fileSize := 500 * 1024 * 1024 |};
     fileFilter := videoFileFilter |}.

Definition getBaseUrl (cfg : config) (req : request) : string :=
  let protocol :=
    match x_forwarded_proto req with
    | Some p => if bool_decide (p = "") then protocol req else p
    | None => protocol req
    end in
  let finalProtocol :=
    if bool_decide (NODE_ENV cfg = Some "production") && bool_decide (protocol = "http")
    then "https" else protocol in
  finalProtocol +:+ "://" +:+ default "undefined" (host req) +:+ "/nitroshare".

(** What the middleware does with a request: it answers, or it sets
    [req.user] and calls [next]. *)
Inductive auth :=
| Sent (r : reply)
| Next (user : payload).

(** [authHeader && authHeader.split(' ')[1]], with the falsy values as
    [None]. *)
Definition bearer (req : request) : option string :=
  match authorization req with
  | None => None
  | Some authHeader =>
      match Js.split " "%char authHeader !! 1%nat with
      | Some token => if bool_decide (token = "") then None else Some token
      | None => None
      end
  end.

(** [process.env.ALLOWED_EMAILS?.split(',').map(email => email.trim()) || []] *)
Definition allowed_emails (cfg : config) : list string :=
  match ALLOWED_EMAILS cfg with
  | Some v => Js.trim <$> Js.split ","%char v
  | None => []
  end.

(** The part of [authenticateToken] after a payload has been obtained. *)
Definition authorize (cfg : config) (p : option payload) : auth :=
  let allowedEmails := allowed_emails cfg in
  if bool_decide (allowedEmails = []) then
    Sent (json 500 (ErrorBody "Server configuration error - no allowed emails configured"))
  else
    match p with
    | None => Sent (sendStatus 403)
    | Some user =>
        match email user with
        | Some e =>
            if Js.includes allowedEmails e then Next user
            else Sent (json 403 (DeniedBody "Access denied - your email is not authorized" (Some e)))
        | None =>
            Sent (json 403 (DeniedBody "Access denied - your email is not authorized" None))
        end
    end.

Definition authenticateToken (cfg : config) (req : request) : auth :=
  match bearer req with
  | None => Sent (sendStatus 401)
  | Some token =>
      match verifyIdToken cfg token with
      | Ticket p => authorize cfg p
      | VerifyThrows =>
          match userinfo cfg token with
          | FetchThrows => Sent (sendStatus 403)
          | Response false _ => Sent (sendStatus 403)
          | Response true JsonThrows => Sent (sendStatus 403)
          | Response true (JsonValue p) => authorize cfg p
          end
      end
  end.

(** A route behind the middleware. *)
Definition authenticated (cfg : config) (req : request) (handler : payload → M reply)
    : M reply :=
  match authenticateToken cfg req with
  | Sent r => mret r
  | Next user => handler user
  end.

(** [POST /nitroshare/api/upload] *)
Definition post_upload (cfg : config) (req : request) : M reply :=
  authenticated cfg req (λ user,
    '(err, req_file) ← single upload "video" user (file req);
    match err with
    | Some (MulterError code message) =>
        if bool_decide (code = "LIMIT_FILE_SIZE")
        then mret (json 413 (ErrorBody "File too large. Maximum size is 500MB."))
        else mret (json 400 (ErrorBody message))
    | Some (OtherError message) => mret (json 400 (ErrorBody message))
    | None =>
        match req_file with
        | None => mret (json 400 (ErrorBody "No video file uploaded"))
        | Some f =>
            e ← user_email user;
            let safeEmail := safe_email e in
            let baseUrl := getBaseUrl cfg req in
            let videoUrl := baseUrl +:+ "/uploads/" +:+ safeEmail +:+ "/" +:+ file_filename f in
            let shareUrl := baseUrl +:+ "/share/" +:+ safeEmail +:+ "/" +:+ file_filename f in
            now ← clock;
            mret (json 200 (UploadedBody "Video uploaded successfully" (file_filename f)
                              videoUrl shareUrl (Date.toISOString now)))
        end
    end).

(** One step of a stable insertion sort: [x] stood before every element of
    [sorted] in the array, so it stays before those it does not have to
    follow. *)
Fixpoint insert_by {A} (compare : A → A → Z) (x : A) (sorted : list A) : list A :=
  match sorted with
  | [] => [x]
  | y :: rest =>
      if compare x y <=? 0 then x :: sorted else y :: insert_by compare x rest
  end.

(** [arr.sort(compare)], which is stable. *)
Definition sort_by {A} (compare : A → A → Z) (arr : list A) : list A :=
  foldr (insert_by compare) [] arr.

(** [GET /nitroshare/api/videos] *)
Definition get_videos (cfg : config) (req : request) : M reply :=
  authenticated cfg req (λ user,
    e ← user_email user;
    userDir ← getUserDirectory e;
    listing ← try (Fs.readdir userDir);
    match listing with
    | None => mret (json 500 (ErrorBody "Unable to read user directory"))
    | Some files =>
        let safeEmail := safe_email e in
        let baseUrl := getBaseUrl cfg req in
        videos ← mapM (λ file,
                    let filePath := Path.join [userDir; file] in
                    stats ← Fs.stat filePath;
                    mret {| v_filename := file;
                            uploadTime := birthtime (Fs.info stats);
                            v_size := size (Fs.info stats);
                            videoUrl := baseUrl +:+ "/uploads/" +:+ safeEmail +:+ "/" +:+ file;
                            shareUrl := baseUrl +:+ "/share/" +:+ safeEmail +:+ "/" +:+ file |})
                  (filter (λ file,
                     let ext := Js.toLowerCase (Path.extname file) in
                     Js.includes allowedExtensions ext = true) files);
        mret (json 200 (VideosBody
                (sort_by (λ a b, uploadTime b - uploadTime a) videos)))
    end).

(** The double quote of the page source is written [^] in the pieces of the
    template below and put back by [q]. *)
Definition q (s : string) : string :=
  Js.map_chars (λ c, if bool_decide (c = "^"%char) then ascii_of_nat 34 else c) s.

(** The template literal of the share page. *)
Definition share_html (filename shareUrl videoUrl : string) : string :=
  q "
<!DOCTYPE html>
<html lang=^en^>
<head>
    <meta charset=^UTF-8^>
    <meta name=^viewport^ content=^width=device-width, initial-scale=1.0^>
    <title>Shared Video - " +:+
  filename +:+
  q "</title>
    
    <!-- Open Graph Meta Tags for Facebook, LinkedIn, etc. -->
    <meta property=^og:title^ content=^Shared Video - " +:+
  filename +:+
  q "^>
    <meta property=^og:description^ content=^Watch this shared video^>
    <meta property=^og:type^ content=^video.other^>
    <meta property=^og:url^ content=^" +:+
  shareUrl +:+
  q "^>
    <meta property=^og:video^ content=^" +:+
  videoUrl +:+
  q "^>
    <meta property=^og:video:secure_url^ content=^" +:+
  videoUrl +:+
  q "^>
    <meta property=^og:video:type^ content=^video/mp4^>
    <meta property=^og:video:width^ content=^1280^>
    <meta property=^og:video:height^ content=^720^>
    
    <!-- Twitter Card Meta Tags -->
    <meta name=^twitter:card^ content=^player^>
    <meta name=^twitter:title^ content=^Shared Video - " +:+
  filename +:+
  q "^>
    <meta name=^twitter:description^ content=^Watch this shared video^>
    <meta name=^twitter:player^ content=^" +:+
  shareUrl +:+
  q "^>
    <meta name=^twitter:player:width^ content=^1280^>
    <meta name=^twitter:player:height^ content=^720^>
    
    <!-- Discord and other platforms -->
    <meta name=^theme-color^ content=^#7289DA^>
    
    <style>
        body {
            margin: 0;
            padding: 20px;
            font-family: Arial, sans-serif;
            background-color: #f0f0f0;
        }
        .container {
            max-width: 1200px;
            margin: 0 auto;
            background: white;
            border-radius: 8px;
            padding: 20px;
            box-shadow: 0 2px 10px rgba(0,0,0,0.1);
        }
        .video-container {
            position: relative;
            width: 100%;
            padding-bottom: 56.25%; /* 16:9 aspect ratio */
            height: 0;
            margin-bottom: 20px;
        }
        video {
            position: absolute;
            top: 0;
            left: 0;
            width: 100%;
            height: 100%;
            border-radius: 4px;
        }
        .info {
            color: #666;
            font-size: 14px;
        }
        .share-buttons {
            margin-top: 20px;
        }
        .share-button {
            display: inline-block;
            margin-right: 10px;
            padding: 8px 16px;
            background: #007bff;
            color: white;
            text-decoration: none;
            border-radius: 4px;
            font-size: 14px;
        }
        .share-button:hover {
            background: #0056b3;
        }
        @media (max-width: 768px) {
            body {
                padding: 10px;
            }
            .container {
                padding: 15px;
            }
        }
    </style>
</head>
<body>
    <div class=^container^>
        <h1>Shared Video</h1>
        <div class=^video-container^>
            <video controls preload=^metadata^>
                <source src=^" +:+
  videoUrl +:+
  q "^ type=^video/mp4^>
                Your browser does not support the video tag.
            </video>
        </div>
        <div class=^info^>
            <p><strong>Filename:</strong> " +:+
  filename +:+
  q "</p>
            <p><strong>Direct Link:</strong> <a href=^" +:+
  videoUrl +:+
  q "^ target=^_blank^>" +:+
  videoUrl +:+
  q "</a></p>
        </div>
        <div class=^share-buttons^>
            <button onclick=^copyToClipboard('" +:+
  shareUrl +:+
  q "')^ class=^share-button^>Copy Link</button>
        </div>
    </div>
    
    <script>
        function copyToClipboard(text) {
            navigator.clipboard.writeText(text).then(function() {
                alert('Link copied to clipboard!');
            });
        }
    </script>
</body>
</html>".

(** [GET /nitroshare/share/:userEmail/:filename] *)
Definition get_share (cfg : config) (req : request) (userEmail filename : string)
    : M reply :=
  let filePath := Path.join [__dirname; "uploads"; userEmail; filename] in
  found ← Fs.existsSync filePath;
  if negb found then mret {| status := 404; content := SendBody "Video not found" |}
  else
    let baseUrl := getBaseUrl cfg req in
    let videoUrl := baseUrl +:+ "/uploads/" +:+ userEmail +:+ "/" +:+ filename in
    let shareUrl := baseUrl +:+ "/share/" +:+ userEmail +:+ "/" +:+ filename in
    mret {| status := 200; content := SendBody (share_html filename shareUrl videoUrl) |}.

(** [DELETE /nitroshare/api/videos/:filename] *)
Definition delete_video (cfg : config) (req : request) (filename : string) : M reply :=
  authenticated cfg req (λ user,
    e ← user_email user;
    userDir ← getUserDirectory e;
    let filePath := Path.join [userDir; filename] in
    found ← Fs.existsSync filePath;
    if negb found then mret (json 404 (ErrorBody "Video not found"))
    else
      removed ← try (Fs.remove filePath);
      match removed with
      | None => mret (json 500 (ErrorBody "Failed to delete video"))
      | Some _ => mret (json 200 (MessageBody "Video deleted successfully"))
      end).

(** The hourly cleanup job, from the innermost callback outwards.  The
    callbacks of one run touch different entries, so they are taken in the
    order of the listings. *)

(** [files.forEach(file => ...)]: one file of a user directory. *)
Definition cleanup_file (oneDayAgo : Z) (userPath file : string) : M unit :=
  let filePath := Path.join [userPath; file] in
  stats ← try (Fs.stat filePath);
  match stats with
  | None => mret tt
  | Some stats =>
      if birthtime (Fs.info stats) <? oneDayAgo
      then try (Fs.remove filePath);; mret tt
      else mret tt
  end.

(** [userDirs.forEach(userDir => ...)]: one entry of [uploads]. *)
Definition cleanup_user (oneDayAgo : Z) (uploadsDir userDir : string) : M unit :=
  let userPath := Path.join [uploadsDir; userDir] in
  stats ← try (Fs.stat userPath);
  match stats with
  | None => mret tt
  | Some stats =>
      if negb (Fs.isDirectory stats) then mret tt
      else
        listing ← try (Fs.readdir userPath);
        match listing with
        | None => mret tt
        | Some files => forEach files (cleanup_file oneDayAgo userPath)
        end
  end.

(** The function handed to [cron.schedule('0 * * * *', ...)]. *)
Definition cleanup : M unit :=
  let uploadsDir := Path.join [__dirname; "uploads"] in
  now ← clock;
  let oneDayAgo := now - 24 * 60 * 60 * 1000 in
  listing ← try (Fs.readdir uploadsDir);
  match listing with
  | None => mret tt
  | Some userDirs => forEach userDirs (cleanup_user oneDayAgo uploadsDir)
  end.

(** ** Vocabulary of the statements *)

(** A string without the separator [sep]. *)
Definition no_sep (sep : ascii) (s : string) : bool :=
  Js.all_chars (λ c, negb (bool_decide (c = sep))) s.

(** The files of partition [k]; nothing when [k] is no directory. *)
Definition partition (s : store) (k : string) : gmap string meta :=
  match s !! k with
  | Some (Dir _ es) => es
  | _ => ∅
  end.

(** Partition [k] exists as a directory. *)
Definition is_dir (s : store) (k : string) : Prop :=
  ∃ m es, s !! k = Some (Dir m es).

(** No stray regular file occupies the place of partition [k]. *)
Definition no_clash (s : store) (k : string) : Prop :=
  ∀ m, s !! k ≠ Some (File m).

(** Every entry of the store bears a name a directory entry can have. *)
Definition wf_store (s : store) : Prop :=
  map_Forall (λ k n,
    is_name k = true ∧
    match n with
    | Dir _ es => map_Forall (λ f _, is_name f = true) es
    | File _ => True
    end) s.

(** The store once partition [k] has been created where it was missing. *)
Definition ensured (now : Z) (s : store) (k : string) : store :=
  match s !! k with
  | None => <[k := Dir {| birthtime := now; size := 4096 |} ∅]> s
  | Some _ => s
  end.

(** The email the middleware lets through, if it lets the request
    through. *)
Definition principal (cfg : config) (req : request) : option string :=
  match authenticateToken cfg req with
  | Next user => email user
  | Sent _ => None
  end.

(** The request carries [part] as its file, in the field the upload route
    reads, with a file name. *)
Definition carries_video (req : request) (part : file_part) : Prop :=
  file req = Some part ∧ fieldname part = "video" ∧ originalname part ≠ "".

(** The name under which an upload made at [now] is stored. *)
Definition stored_name (now : Z) (part : file_part) : string :=
  replace_unsafe (Date.toISOString now) +:+ Path.extname (originalname part).

(** The characters an ISO date is made of. *)
Definition iso_char (c : ascii) : bool :=
  Js.is_digit c || bool_decide (c ∈ ["-"; "+"; "T"; ":"; "."; "Z"]%char).

(** What [replace_unsafe] leaves of an ISO date: neither a separator nor a
    dot. *)
Definition plain_char (c : ascii) : bool :=
  negb (bool_decide (c = Js.slash)) && negb (bool_decide (c = Js.dot)).

(** The extension the file filter derives from the original file name. *)
Definition extension_of (part : file_part) : string :=
  Path.extname (Js.toLowerCase (originalname part)).

(** The retention window of the cleanup job, in milliseconds. *)
Definition retention_window : Z := 24 * 60 * 60 * 1000.

(** Created earlier than the retention window before [now]. *)
Definition expired (now : Z) (m : meta) : Prop :=
  birthtime m < now - retention_window.

#[global] Instance expired_dec now m : Decision (expired now m).
Proof. unfold expired. apply _. Defined.

(** What a sweep is meant to leave of an entry of [uploads], and of the
    store: in every partition the files that are not expired, and all else
    as it was. *)
Definition purge (now : Z) (n : node) : node :=
  match n with
  | File m => File m
  | Dir m es => Dir m (filter (λ fm, ¬ expired now fm.2) es)
  end.

Definition sweep (now : Z) (s : store) : store := purge now <$> s.

(** The catalog entry of a file of a partition. *)
Definition summary (cfg : config) (req : request) (key : string) (fm : string * meta)
    : video :=
  {| v_filename := fm.1;
     uploadTime := birthtime fm.2;
     v_size := size fm.2;
     videoUrl := getBaseUrl cfg req +:+ "/uploads/" +:+ key +:+ "/" +:+ fm.1;
     shareUrl := getBaseUrl cfg req +:+ "/share/" +:+ key +:+ "/" +:+ fm.1 |}.

(** The extension of a stored name is allow-listed, whatever its case. *)
Definition listed (name : string) : Prop :=
  Js.toLowerCase (Path.extname name) ∈ allowedExtensions.

#[global] Instance listed_dec name : Decision (listed name).
Proof. unfold listed. apply _. Defined.

(** The [og:video] tag of a share page for the direct URL [url]. *)
Definition og_video (url : string) : string :=
  q "<meta property=^og:video^ content=^" +:+ url +:+ q "^>".

(** [needle] occurs in [hay]. *)
Definition contains (hay needle : string) : Prop :=
  ∃ pre post, hay = pre +:+ needle +:+ post.



(** The three ways a file passes the type check, as the validation rule
    lists them. *)
Definition type_accepted (part : file_part) : Prop :=
  extension_of part ∈ allowedExtensions ∨
  Js.startsWith "video/" (mimetype part) = true ∨
  (mimetype part = "application/octet-stream" ∧ extension_of part ∈ allowedExtensions).

(** The size ceiling of the upload route. *)
Definition ceiling : Z := fileSize (upload_limits upload).

(** The store with [n] bytes written to file [f] of partition [k]: a new
    file is born at [now], a file that was there keeps its birth time. *)
Definition put_file (now : Z) (s : store) (k f : string) (n : Z) : store :=
  match s !! k with
  | Some (Dir m es) =>
      <[k := Dir m (<[f := {| birthtime := match es !! f with
                                           | Some old => birthtime old
                                           | None => now
                                           end;
                              size := n |}]> es)]> s
  | _ => s
  end.

(** The store without file [f] of partition [k]. *)
Definition drop_file (s : store) (k f : string) : store :=
  match s !! k with
  | Some (Dir m es) => <[k := Dir m (delete f es)]> s
  | _ => s
  end.


(** The catalog entry of a name, read from the files [es] of a
    partition. *)
Definition entry_of (cfg : config) (req : request) (key : string)
    (es : gmap string meta) (name : string) : video :=
  summary cfg req key (name, default {| birthtime := 0; size := 0 |} (es !! name)).

(** What the cleanup job does to the files [es] of a partition when it
    comes to the name [f]. *)
Definition expire_file (now : Z) (f : string) (es : gmap string meta) : gmap string meta :=
  match es !! f with
  | Some x => if decide (expired now x) then delete f es else es
  | None => es
  end.

(** The path the share route looks up, and the direct URL it advertises. *)
Definition share_path (userEmail filename : string) : string :=
  Path.join [__dirname; "uploads"; userEmail; filename].

Definition direct_url (cfg : config) (req : request) (userEmail filename : string)
    : string :=
  getBaseUrl cfg req +:+ "/uploads/" +:+ userEmail +:+ "/" +:+ filename.

(** Something exists at path [p] of the store. *)
Definition on_disk (s : store) (p : string) : Prop :=
  match locate p with
  | (Root, _) => True
  | l => is_Some (Fs.lookup_stats s l)
  end.

#[global] Instance on_disk_dec s p : Decision (on_disk s p).
Proof. unfold on_disk. destruct (locate p) as [[] ?]; apply _. Defined.

(** ** Sample data *)

(** A provider that knows two access tokens, and an allow-list of two. *)
Definition provider_cfg : config :=
  {| verifyIdToken := λ _, VerifyThrows;
     userinfo := λ token,
       if bool_decide (token = "alice-token")
       then Response true (JsonValue (Some {| email := Some "alice@example.com" |}))
       else if bool_decide (token = "bob-token")
       then Response true (JsonValue (Some {| email := Some "bob@example.com" |}))
       else Response false JsonThrows;
     ALLOWED_EMAILS := Some "alice@example.com, bob@example.com";
     NODE_ENV := Some "production" |}.

Definition request_with (token : string) (part : option file_part) : request :=
  {| authorization := Some ("Bearer " +:+ token);
     x_forwarded_proto := None;
     protocol := "http";
     host := Some "example.com";
     file := part |}.

Definition video_part (name type : string) (n : Z) : file_part :=
  {| fieldname := "video"; originalname := name; mimetype := type; bytes := n |}.

(** 2024-02-29T12:34:56.789Z *)
Definition noon : Z := 1709210096789.

(** Bob's partition with one clip born at [t]. *)
Definition bob_store (t : Z) : store :=
  {[ "bob_example_com" :=
       Dir {| birthtime := t; size := 4096 |}
           {[ "clip.mp4" := {| birthtime := t; size := 1000 |} ]} ]}.

(** Alice's partition with an old clip, a fresh one and a stray note, next
    to a stray file of [uploads]; [t] is the time of observation. *)
Definition alice_store (t : Z) : store :=
  {[ "alice_example_com" :=
       Dir {| birthtime := 0; size := 4096 |}
           (<["old.mp4" := {| birthtime := t - 90000000; size := 10 |}]>
            (<["new.MOV" := {| birthtime := t - 1000; size := 20 |}]>
             {[ "notes.txt" := {| birthtime := t - 5000; size := 1 |} ]}));
     ".gitkeep" := File {| birthtime := 0; size := 0 |} ]}.


(** ** The client's check before an upload ([App.jsx]) *)

Module Client.

(** A [File] of the browser, as far as the check reads it. *)
Record File := { name : string; type : string; size : Z }.

(** [s.endsWith(suffix)] *)
Fixpoint endsWith (suffix s : string) : bool :=
  bool_decide (s = suffix) ||
  match s with
  | "" => false
  | String _ r => endsWith suffix r
  end.

(** [{ valid: true }] or [{ valid: false, error }] *)
Inductive validation :=
| Valid
| Invalid (error : string).

Definition maxSize : Z := 500 * 1024 * 1024.

Definition allowedExtensions : list string :=
  [".mp4"; ".avi"; ".mov"; ".wmv"; ".flv"; ".webm"; ".mkv"; ".m4v"; ".3gp"].

Definition allowedMimeTypes : list string :=
  ["video/mp4"; "video/avi"; "video/quicktime"; "video/x-msvideo"; "video/x-flv";
   "video/webm"; "video/x-matroska"; "video/3gpp"; "video/x-m4v"].

(** [fileName.substring(fileName.lastIndexOf('.'))]: from the last dot on,
    and the whole name when it has no dot (the index is -1 then, which
    [substring] takes as 0). *)
Definition from_lastIndexOf_dot (fileName : string) : string :=
  default fileName (Path.from_last_dot fileName).

(** The line feed of the template literal. *)
Definition newline : string := String (ascii_of_nat 10) "".

Definition validateVideoFile (file : File) : validation :=
  if maxSize <? size file then
    Invalid "File size exceeds 500MB limit. Please choose a smaller file."
  else
    let fileName := Js.toLowerCase (name file) in
    let fileExtension := from_lastIndexOf_dot fileName in
    let hasValidExtension := existsb (λ ext, endsWith ext fileName) allowedExtensions in
    let hasValidMimeType :=
      Js.includes allowedMimeTypes (type file) || Js.startsWith "video/" (type file) in
    if hasValidExtension || hasValidMimeType then Valid
    else Invalid ("Unsupported file type. Please upload a video file." +:+ newline +:+
                  "File type detected: " +:+
                  (if bool_decide (type file = "") then "unknown" else type file) +:+
                  newline +:+ "File extension: " +:+ fileExtension).

(** [formData.append('video', file)]: the part the browser makes of the
    file.  A file without a type is sent as [application/octet-stream]. *)
Definition form_part (file : File) : file_part :=
  {| fieldname := "video";
     originalname := name file;
     mimetype := if bool_decide (type file = "") then "application/octet-stream"
                 else type file;
     bytes := size file |}.

End Client.

(** ** Vocabulary of the further statements *)

(** The payload the middleware obtained for a token, if any path gave
    one. *)
Definition verified (cfg : config) (token : string) : option (option payload) :=
  match verifyIdToken cfg token with
  | Ticket p => Some p
  | VerifyThrows =>
      match userinfo cfg token with
      | Response true (JsonValue p) => Some p
      | _ => None
      end
  end.

(** A string without a space. *)
Definition no_space (s : string) : bool := no_sep " "%char s.

(** ** More sample data *)

(** Two allow-listed addresses that differ in one punctuation mark. *)
Definition twin_cfg : config :=
  {| verifyIdToken := λ _, VerifyThrows;
     userinfo := λ token,
       if bool_decide (token = "dot-token")
       then Response true (JsonValue (Some {| email := Some "a.b@example.com" |}))
       else if bool_decide (token = "underscore-token")
       then Response true (JsonValue (Some {| email := Some "a_b@example.com" |}))
       else Response false JsonThrows;
     ALLOWED_EMAILS := Some "a.b@example.com , a_b@example.com";
     NODE_ENV := None |}.

(** A server started without [ALLOWED_EMAILS]. *)
Definition unset_cfg : config :=
  {| verifyIdToken := verifyIdToken provider_cfg;
     userinfo := userinfo provider_cfg;
     ALLOWED_EMAILS := None;
     NODE_ENV := None |}.

(** * Properties *)

(** ** [path] and [Date] on sample values *)

Example extname_mp4 : Path.extname "clip.mp4" = ".mp4".
Proof. reflexivity. Qed.
Example extname_hidden : Path.extname ".bashrc" = "".
Proof. reflexivity. Qed.
Example extname_two_dots : Path.extname "index.coffee.md" = ".md".
Proof. reflexivity. Qed.
Example extname_trailing_dot : Path.extname "index." = ".".
Proof. reflexivity. Qed.
Example extname_dotdot : Path.extname ".." = "".
Proof. reflexivity. Qed.
Example extname_dir : Path.extname "a.b/clip.MOV/" = ".MOV".
Proof. reflexivity. Qed.
Example join_two : Path.join ["uploads"; "alice_example_com"] = "uploads/alice_example_com".
Proof. reflexivity. Qed.
Example join_up : Path.join ["uploads/alice"; "../bob/clip.mp4"] = "uploads/bob/clip.mp4".
Proof. reflexivity. Qed.
Example join_dot : Path.join ["uploads/alice"; "."] = "uploads/alice".
Proof. reflexivity. Qed.
Example join_trailing : Path.join ["uploads/alice"; "x.mp4/"] = "uploads/alice/x.mp4/".
Proof. reflexivity. Qed.
Example join_above : Path.join ["uploads"; "../../etc"] = "../etc".
Proof. reflexivity. Qed.
Example iso_epoch : Date.toISOString 0 = "1970-01-01T00:00:00.000Z".
Proof. reflexivity. Qed.
Example iso_noon : Date.toISOString noon = "2024-02-29T12:34:56.789Z".
Proof. reflexivity. Qed.
Example iso_before_epoch : Date.toISOString (-1) = "1969-12-31T23:59:59.999Z".
Proof. reflexivity. Qed.
Example iso_far : Date.toISOString 253402300800000 = "+010000-01-01T00:00:00.000Z".
Proof. reflexivity. Qed.
Example locate_traversal :
  locate (Path.join [Path.join ["uploads"; "alice_example_com"]; "../bob_example_com/clip.mp4"])
    = (Entry "bob_example_com" "clip.mp4", false).
Proof. reflexivity. Qed.

(** ** Strings and paths *)

Section strings.

Lemma sapp_nil (t : string) : "" +:+ t = t.
Proof. reflexivity. Qed.

Lemma sapp_cons (c : ascii) (s t : string) : String c s +:+ t = String c (s +:+ t).
Proof. reflexivity. Qed.

Lemma sapp_nil_r (s : string) : s +:+ "" = s.
Proof. induction s as [|c s IH]; [reflexivity|]. rewrite sapp_cons. by f_equal. Qed.

Lemma sapp_assoc (s t u : string) : (s +:+ t) +:+ u = s +:+ t +:+ u.
Proof. induction s as [|c s IH]; [reflexivity|]. rewrite !sapp_cons. by f_equal. Qed.

Lemma slength_app (s t : string) : Js.length (s +:+ t) = (Js.length s + Js.length t)%nat.
Proof. induction s as [|c s IH]; [reflexivity|]. rewrite sapp_cons. simpl. by rewrite IH. Qed.

Lemma map_chars_app f (s t : string) :
  Js.map_chars f (s +:+ t) = Js.map_chars f s +:+ Js.map_chars f t.
Proof. induction s as [|c s IH]; [reflexivity|]. rewrite sapp_cons. simpl. by rewrite IH. Qed.

Lemma length_map_chars f (s : string) : Js.length (Js.map_chars f s) = Js.length s.
Proof. induction s as [|c s IH]; [reflexivity|]. simpl. by rewrite IH. Qed.

Lemma all_chars_app p (s t : string) :
  Js.all_chars p (s +:+ t) = Js.all_chars p s && Js.all_chars p t.
Proof.
  induction s as [|c s IH]; [reflexivity|].
  rewrite sapp_cons. simpl. rewrite IH. by rewrite andb_assoc.
Qed.

Lemma all_chars_map (p : ascii → bool) f (s : string) :
  (∀ c, p (f c) = true) → Js.all_chars p (Js.map_chars f s) = true.
Proof. intros Hf. induction s as [|c s IH]; [reflexivity|]. simpl. by rewrite Hf, IH. Qed.

Lemma all_chars_map_keep (p : ascii → bool) f (s : string) :
  (∀ c, p c = true → p (f c) = true) →
  Js.all_chars p s = true → Js.all_chars p (Js.map_chars f s) = true.
Proof.
  intros Hf. induction s as [|c s IH]; [reflexivity|]. simpl.
  intros [Hc Hs]%andb_true_iff. by rewrite (Hf _ Hc), IH.
Qed.

Lemma all_chars_impl (p p' : ascii → bool) (s : string) :
  (∀ c, p c = true → p' c = true) →
  Js.all_chars p s = true → Js.all_chars p' s = true.
Proof.
  intros Hp. induction s as [|c s IH]; [reflexivity|]. simpl.
  intros [Hc Hs]%andb_true_iff. by rewrite (Hp _ Hc), IH.
Qed.

Lemma split_no_sep sep (s : string) : no_sep sep s = true → Js.split sep s = [s].
Proof.
  induction s as [|c s IH]; [reflexivity|]. unfold no_sep. simpl.
  intros [Hc Hs]%andb_true_iff. rewrite IH by done.
  by destruct (bool_decide (c = sep)).
Qed.

Lemma split_app sep (a b : string) :
  no_sep sep a = true → Js.split sep (a +:+ String sep b) = a :: Js.split sep b.
Proof.
  induction a as [|c a IH]; unfold no_sep; simpl.
  - intros _. by rewrite bool_decide_eq_true_2.
  - intros [Hc Ha]%andb_true_iff. rewrite IH by done.
    by destruct (bool_decide (c = sep)).
Qed.

Lemma split_pieces_no_sep sep (s piece : string) :
  piece ∈ Js.split sep s → no_sep sep piece = true.
Proof.
  revert piece. induction s as [|c s IH]; simpl; intros piece.
  - by intros ->%list_elem_of_singleton.
  - destruct (bool_decide (c = sep)) eqn:Hc.
    + intros [->|?]%elem_of_cons; [done|by apply IH].
    + destruct (Js.split sep s) as [|h t] eqn:Hsplit.
      * intros ->%list_elem_of_singleton. unfold no_sep. simpl. by rewrite Hc.
      * intros [->|?]%elem_of_cons.
        -- unfold no_sep. simpl. rewrite Hc. simpl. apply IH. by left.
        -- apply IH. by right.
Qed.

Lemma ends_with_slash_app (a : string) (c : ascii) (b : string) :
  Js.ends_with_slash (a +:+ String c b) = Js.ends_with_slash (String c b).
Proof.
  induction a as [|x a IH]; [done|].
  rewrite <-IH. simpl.
  destruct (a +:+ String c b) eqn:Ha; [|done].
  by destruct a.
Qed.

Lemma ends_with_slash_no_sep (s : string) :
  no_sep Js.slash s = true → Js.ends_with_slash s = false.
Proof.
  induction s as [|c s IH]; [done|]. unfold no_sep. simpl.
  intros [Hc Hs]%andb_true_iff. destruct s as [|d s]; [|by apply IH].
  by apply negb_true_iff in Hc.
Qed.

End strings.

(** ** Names, and where the paths of the server lead *)

Section names.

Lemma is_name_spec (s : string) :
  is_name s = true ↔ s ≠ "" ∧ s ≠ "." ∧ s ≠ ".." ∧ no_sep Js.slash s = true.
Proof.
  unfold is_name, no_sep. rewrite !andb_true_iff, !negb_true_iff, !bool_decide_eq_false.
  tauto.
Qed.

Lemma is_name_uploads : is_name "uploads" = true.
Proof. reflexivity. Qed.

Lemma name_starts (s : string) :
  is_name s = true → ∃ c r, s = String c r ∧ c ≠ Js.slash.
Proof.
  intros (Hne & _ & _ & Hs)%is_name_spec. destruct s as [|c r]; [done|].
  exists c, r. split; [done|]. unfold no_sep in Hs. simpl in Hs.
  apply andb_true_iff in Hs as [Hc _]. by apply negb_true_iff, bool_decide_eq_false in Hc.
Qed.

Lemma join_cons2 (x y : string) (l : list string) :
  Js.join "/" (x :: y :: l) = x +:+ String Js.slash (Js.join "/" (y :: l)).
Proof. reflexivity. Qed.

Lemma split_join (l : list string) :
  l ≠ [] → Forall (λ x, is_name x = true) l → Js.split Js.slash (Js.join "/" l) = l.
Proof.
  induction l as [|x l IH]; [done|]. intros _ Hall.
  apply Forall_cons in Hall as [Hx Hl].
  apply is_name_spec in Hx as (_ & _ & _ & Hx).
  destruct l as [|y l].
  - simpl. by apply split_no_sep.
  - rewrite join_cons2, split_app by done. f_equal. by apply IH.
Qed.

Lemma normalize_pieces_names b (l res : list string) :
  Forall (λ x, is_name x = true) l → Path.normalize_pieces b l res = reverse l ++ res.
Proof.
  revert res. induction l as [|x l IH]; intros res Hall; [done|].
  apply Forall_cons in Hall as [Hx Hl].
  apply is_name_spec in Hx as (H1 & H2 & H3 & _). simpl.
  rewrite !bool_decide_eq_false_2 by done. simpl.
  rewrite IH by done. by rewrite reverse_cons, <-app_assoc.
Qed.

Lemma join_names_nonempty (l : list string) :
  l ≠ [] → Forall (λ x, is_name x = true) l →
  ∃ c r, Js.join "/" l = String c r ∧ c ≠ Js.slash.
Proof.
  destruct l as [|x l]; [done|]. intros _ Hall.
  apply Forall_cons in Hall as [Hx Hl].
  destruct (name_starts _ Hx) as (c & r & -> & Hc).
  destruct l as [|y l]; [by exists c, r|].
  rewrite join_cons2. simpl. eauto.
Qed.

Lemma join_names_no_trailing (l : list string) :
  l ≠ [] → Forall (λ x, is_name x = true) l → Js.ends_with_slash (Js.join "/" l) = false.
Proof.
  induction l as [|x l IH]; [done|]. intros _ Hall.
  apply Forall_cons in Hall as [Hx Hl].
  destruct l as [|y l].
  - simpl. apply ends_with_slash_no_sep. by apply is_name_spec in Hx as (_ & _ & _ & ?).
  - rewrite join_cons2.
    destruct (join_names_nonempty (y :: l)) as (c & r & Hj & Hc); [done..|].
    rewrite ends_with_slash_app.
    specialize (IH ltac:(done) Hl). rewrite Hj in IH |- *. simpl.
    destruct r; [|done]. simpl in IH. done.
Qed.

(** A path made of names is left alone by [path.normalize]. *)
Lemma normalize_names (l : list string) :
  l ≠ [] → Forall (λ x, is_name x = true) l →
  Path.normalize (Js.join "/" l) = Js.join "/" l.
Proof.
  intros Hne Hall. unfold Path.normalize.
  destruct (join_names_nonempty l Hne Hall) as (c & r & Hj & Hc).
  rewrite bool_decide_eq_false_2 by (rewrite Hj; done).
  rewrite split_join, normalize_pieces_names, join_names_no_trailing by done.
  rewrite app_nil_r, reverse_involutive.
  assert (Js.startsWith "/" (Js.join "/" l) = false) as ->.
  { rewrite Hj. simpl. by rewrite bool_decide_eq_false_2 by (intros <-; done). }
  rewrite bool_decide_eq_false_2 by (rewrite Hj; done).
  simpl. by rewrite sapp_nil_r.
Qed.

End names.

Section locations.

Lemma filter_nonempty_names (l : list string) :
  Forall (λ x, is_name x = true) l → filter (λ a, a ≠ "") l = l.
Proof.
  induction 1 as [|x l Hx _ IH]; [done|].
  rewrite filter_cons_True, IH; [done|]. by apply is_name_spec in Hx as (? & _).
Qed.

Lemma join_names (l : list string) :
  l ≠ [] → Forall (λ x, is_name x = true) l → Path.join l = Js.join "/" l.
Proof.
  intros Hne Hall. unfold Path.join.
  rewrite filter_nonempty_names by done. by apply normalize_names.
Qed.

Lemma join_partition (k : string) :
  is_name k = true → Path.join ["uploads"; k] = "uploads/" +:+ k.
Proof. intros Hk. rewrite join_names; [done|done|]. by repeat constructor. Qed.

Lemma join_uploads : Path.join [__dirname; "uploads"] = "uploads".
Proof. reflexivity. Qed.

Lemma join_entry (k f : string) :
  is_name k = true → is_name f = true →
  Path.join ["uploads/" +:+ k; f] = "uploads/" +:+ k +:+ "/" +:+ f.
Proof.
  intros Hk Hf. unfold Path.join.
  rewrite !filter_cons_True, filter_nil; [|by apply is_name_spec in Hf as (? & _)|done].
  change (Js.join "/" ["uploads/" +:+ k; f]) with (("uploads/" +:+ k) +:+ "/" +:+ f).
  rewrite sapp_assoc.
  change ("uploads/" +:+ k +:+ "/" +:+ f) with (Js.join "/" ["uploads"; k; f]).
  apply normalize_names; [done|]. by repeat constructor.
Qed.

Lemma last_names (l : list string) :
  Forall (λ x, is_name x = true) l → last l ≠ Some "".
Proof.
  intros Hall Hl. apply last_Some in Hl as [l' ->].
  apply Forall_app in Hall as [_ Hall]. apply Forall_cons in Hall as [Hall _].
  vm_compute in Hall. discriminate.
Qed.

Lemma locate_names (l : list string) :
  Forall (λ x, is_name x = true) l →
  locate (Js.join "/" ("uploads" :: l)) =
    (match l with
     | [] => Root
     | [k] => Top k
     | [k; f] => Entry k f
     | _ => Beyond
     end, false).
Proof.
  intros Hall. unfold locate.
  rewrite split_join; [|done|by constructor].
  rewrite bool_decide_eq_true_2 by done.
  rewrite (bool_decide_eq_false_2 (last l = Some "")) by by apply last_names.
  assert (forallb is_name l = true) as ->; [|done].
  apply forallb_forall. intros x Hx. eapply Forall_forall in Hall; [done|].
  by apply list_elem_of_In.
Qed.

Lemma locate_uploads : locate "uploads" = (Root, false).
Proof. reflexivity. Qed.

Lemma locate_partition (k : string) :
  is_name k = true → locate ("uploads/" +:+ k) = (Top k, false).
Proof. intros Hk. apply (locate_names [k]). by repeat constructor. Qed.

Lemma locate_entry (k f : string) :
  is_name k = true → is_name f = true →
  locate ("uploads/" +:+ k +:+ "/" +:+ f) = (Entry k f, false).
Proof. intros Hk Hf. apply (locate_names [k; f]). by repeat constructor. Qed.

(** The partition key of an email is a name as soon as the email is not
    empty. *)
Lemma safe_email_chars (e : string) :
  Js.all_chars (λ c, Js.is_alnum c || bool_decide (c = "_"%char)) (safe_email e) = true.
Proof.
  apply all_chars_map. intros c. destruct (Js.is_alnum c) eqn:Hc; [by rewrite Hc|done].
Qed.

Lemma alnum_not_special (c : ascii) :
  Js.is_alnum c || bool_decide (c = "_"%char) = true → c ≠ Js.slash ∧ c ≠ Js.dot.
Proof.
  intros Hc. split; intros ->; vm_compute in Hc; discriminate.
Qed.

Lemma safe_email_name (e : string) : e ≠ "" → is_name (safe_email e) = true.
Proof.
  intros He. pose proof (safe_email_chars e) as Hall.
  apply is_name_spec. destruct e as [|c e]; [done|].
  unfold safe_email in *. simpl in *.
  set (c' := if Js.is_alnum c then c else "_"%char) in *.
  apply andb_true_iff in Hall as [Hc Hall].
  apply alnum_not_special in Hc as [Hc1 Hc2].
  split; [done|]. split; [intros [= Hd _]; exact (Hc2 Hd)|].
  split; [intros [= Hd _]; exact (Hc2 Hd)|].
  unfold no_sep. simpl. rewrite bool_decide_eq_false_2 by done. simpl.
  eapply all_chars_impl; [|exact Hall]. intros x Hx.
  apply alnum_not_special in Hx as [? _]. by rewrite bool_decide_eq_false_2.
Qed.

End locations.

(** ** Running computations on the store *)

Section running.

Lemma run_bind {A B} (m : M A) (k : A → M B) now s :
  (m ≫= k) now s =
    match m now s with
    | (Ok a, s') => k a now s'
    | (Throw, s') => (Throw, s')
    | (Unmodelled, s') => (Unmodelled, s')
    end.
Proof. reflexivity. Qed.

Lemma run_bind_ok {A B} (m : M A) (k : A → M B) now s a s' :
  m now s = (Ok a, s') → (m ≫= k) now s = k a now s'.
Proof. intros H. by rewrite run_bind, H. Qed.

Lemma run_ret {A} (a : A) now s : (mret a : M A) now s = (Ok a, s).
Proof. reflexivity. Qed.

Lemma run_try_ok {A} (m : M A) now s a s' :
  m now s = (Ok a, s') → try m now s = (Ok (Some a), s').
Proof. intros H. unfold try. by rewrite H. Qed.

Lemma run_try_throw {A} (m : M A) now s s' :
  m now s = (Throw, s') → try m now s = (Ok None, s').
Proof. intros H. unfold try. by rewrite H. Qed.

Lemma partition_lookup_stats s k f :
  Fs.lookup_stats s (Entry k f, false) =
    (λ m, {| Fs.isDirectory := false; Fs.info := m |}) <$> partition s k !! f.
Proof.
  unfold partition. simpl. destruct (s !! k) as [[m|m es]|]; try done.
Qed.

Lemma existsSync_entry p k f now s :
  locate p = (Entry k f, false) →
  Fs.existsSync p now s = (Ok (bool_decide (is_Some (partition s k !! f))), s).
Proof.
  intros Hp. unfold Fs.existsSync. rewrite Hp, partition_lookup_stats.
  do 2 f_equal. apply bool_decide_ext. by rewrite fmap_is_Some.
Qed.

Lemma stat_entry p k f now s :
  locate p = (Entry k f, false) →
  Fs.stat p now s =
    match partition s k !! f with
    | Some m => (Ok {| Fs.isDirectory := false; Fs.info := m |}, s)
    | None => (Throw, s)
    end.
Proof.
  intros Hp. unfold Fs.stat. rewrite Hp, partition_lookup_stats.
  by destruct (partition s k !! f).
Qed.

Lemma stat_top p k now s :
  locate p = (Top k, false) →
  Fs.stat p now s =
    match s !! k with
    | Some n => (Ok (Fs.node_stats n), s)
    | None => (Throw, s)
    end.
Proof.
  intros Hp. unfold Fs.stat. rewrite Hp. simpl. by destruct (s !! k).
Qed.

Lemma readdir_root p b now s :
  locate p = (Root, b) → Fs.readdir p now s = (Ok (map_to_list s).*1, s).
Proof. intros Hp. unfold Fs.readdir. by rewrite Hp. Qed.

Lemma readdir_top p k b now s :
  locate p = (Top k, b) →
  Fs.readdir p now s =
    match s !! k with
    | Some (Dir _ es) => (Ok (map_to_list es).*1, s)
    | _ => (Throw, s)
    end.
Proof. intros Hp. unfold Fs.readdir. by rewrite Hp. Qed.

Lemma remove_entry p k f now s :
  locate p = (Entry k f, false) →
  Fs.remove p now s =
    (Ok tt, alter (λ n, match n with
                        | Dir m es => Dir m (delete f es)
                        | File m => File m
                        end) k s).
Proof. intros Hp. unfold Fs.remove. by rewrite Hp. Qed.

Lemma remove_entry_dir p k f now s m es :
  locate p = (Entry k f, false) → s !! k = Some (Dir m es) →
  Fs.remove p now s = (Ok tt, <[k := Dir m (delete f es)]> s).
Proof.
  intros Hp Hk. rewrite (remove_entry _ _ _ _ _ Hp). f_equal.
  apply map_eq. intros k'. rewrite lookup_alter, lookup_insert.
  case_decide; subst; by rewrite ?Hk.
Qed.

Lemma writeFile_entry p k f n now s m es :
  locate p = (Entry k f, false) → s !! k = Some (Dir m es) →
  Fs.writeFile p n now s =
    (Ok tt, <[k := Dir m (<[f := {| birthtime := match es !! f with
                                                 | Some old => birthtime old
                                                 | None => now
                                                 end;
                                    size := n |}]> es)]> s).
Proof. intros Hp Hk. unfold Fs.writeFile. by rewrite Hp, Hk. Qed.

(** [getUserDirectory] of a non-empty email: the partition is there
    afterwards, unless a stray file has its name. *)
Lemma getUserDirectory_run e now s :
  e ≠ "" →
  getUserDirectory e now s =
    match s !! safe_email e with
    | Some (File _) => (Throw, s)
    | _ => (Ok ("uploads/" +:+ safe_email e), ensured now s (safe_email e))
    end.
Proof.
  intros He. pose proof (safe_email_name e He) as Hk.
  unfold getUserDirectory. rewrite run_bind, join_partition by done.
  unfold Fs.ensureDirSync, ensured. rewrite locate_partition by done.
  by destruct (s !! safe_email e) as [[m|m es]|].
Qed.

Lemma getUserDirectory_ok e now s :
  e ≠ "" → no_clash s (safe_email e) →
  getUserDirectory e now s = (Ok ("uploads/" +:+ safe_email e), ensured now s (safe_email e)).
Proof.
  intros He Hc. rewrite getUserDirectory_run by done.
  destruct (s !! safe_email e) as [[m|m es]|] eqn:Hk; try done.
  by destruct (Hc m).
Qed.

Lemma partition_ensured now s k k' : partition (ensured now s k) k' = partition s k'.
Proof.
  unfold ensured, partition. destruct (s !! k) eqn:Hk; [done|].
  destruct (decide (k = k')) as [<-|Hne].
  - by rewrite lookup_insert_eq, Hk.
  - by rewrite lookup_insert_ne.
Qed.

Lemma ensured_is_dir now s k : no_clash s k → is_dir (ensured now s k) k.
Proof.
  intros Hc. unfold ensured, is_dir. destruct (s !! k) as [[m|m es]|] eqn:Hk.
  - by destruct (Hc m).
  - eauto.
  - rewrite lookup_insert_eq. eauto.
Qed.

Lemma ensured_lookup now s k :
  no_clash s k →
  ∃ m, ensured now s k !! k = Some (Dir m (partition s k)).
Proof.
  intros Hc. unfold ensured, partition. destruct (s !! k) as [[m|m es]|] eqn:Hk.
  - by destruct (Hc m).
  - rewrite Hk. eauto.
  - rewrite lookup_insert_eq. eauto.
Qed.

Lemma ensured_other now s k k' : k ≠ k' → ensured now s k !! k' = s !! k'.
Proof.
  intros Hne. unfold ensured. destruct (s !! k); [done|]. by rewrite lookup_insert_ne.
Qed.

Lemma ensured_id now s k : is_Some (s !! k) → ensured now s k = s.
Proof. intros [n Hn]. unfold ensured. by rewrite Hn. Qed.

Lemma wf_store_ensured now s k : is_name k = true → wf_store s → wf_store (ensured now s k).
Proof.
  intros Hk Hwf. unfold ensured. destruct (s !! k) eqn:Hsk; [done|].
  apply map_Forall_insert_2; [|done]. split; [done|]. apply map_Forall_empty.
Qed.

Lemma wf_store_key s k n : wf_store s → s !! k = Some n → is_name k = true.
Proof. intros Hwf Hk. by destruct (Hwf k n Hk). Qed.

Lemma wf_store_file s k f x :
  wf_store s → partition s k !! f = Some x → is_name f = true.
Proof.
  intros Hwf. unfold partition. destruct (s !! k) as [[m|m es]|] eqn:Hk; try done.
  intros Hf. destruct (Hwf k _ Hk) as [_ Hes]. by apply (Hes f x).
Qed.

(** What the middleware lets through carries the email. *)
Lemma principal_next cfg req e :
  principal cfg req = Some e →
  ∃ user, authenticateToken cfg req = Next user ∧ email user = Some e.
Proof.
  unfold principal. destruct (authenticateToken cfg req) as [r|user]; [done|]. eauto.
Qed.

Lemma authenticated_run cfg req e (handler : payload → M reply) now s :
  principal cfg req = Some e →
  ∃ user, email user = Some e ∧
    authenticated cfg req handler now s = handler user now s.
Proof.
  intros (user & Hauth & He)%principal_next. exists user. split; [done|].
  unfold authenticated. by rewrite Hauth.
Qed.

Lemma user_email_run user e now s :
  email user = Some e → user_email user now s = (Ok e, s).
Proof. intros He. unfold user_email. by rewrite He. Qed.

End running.

(** ** The middleware *)

Section middleware.


Lemma no_token_unauthenticated cfg req :
  bearer req = None → authenticateToken cfg req = Sent (sendStatus 401).
Proof. intros Hb. unfold authenticateToken. by rewrite Hb. Qed.

End middleware.




(** ** The file filter *)

Section filter.

Lemma includes_true (arr : list string) (x : string) :
  Js.includes arr x = true ↔ x ∈ arr.
Proof. unfold Js.includes. by rewrite bool_decide_eq_true. Qed.

Lemma allowed_mime_is_video (t : string) :
  t ∈ allowedMimeTypes → Js.startsWith "video/" t = true.
Proof.
  unfold allowedMimeTypes. rewrite !elem_of_cons, elem_of_nil.
  intros H. repeat (destruct H as [->|H]; [reflexivity|]). done.
Qed.

Lemma filter_accepts part : videoFileFilter part = Accept ↔ type_accepted part.
Proof.
  unfold videoFileFilter, type_accepted, extension_of.
  set (ext := Path.extname (Js.toLowerCase (originalname part))).
  destruct (Js.includes allowedExtensions ext) eqn:Hext.
  - apply includes_true in Hext. rewrite orb_true_l. split; [intros _; by left|done].
  - assert (ext ∉ allowedExtensions) as Hn.
    { intros ?%includes_true. congruence. }
    rewrite andb_false_r, orb_false_r, orb_false_l.
    destruct (Js.includes allowedMimeTypes (mimetype part)) eqn:Hmime.
    + apply includes_true, allowed_mime_is_video in Hmime. rewrite orb_true_l.
      split; [intros _; by right; left|done].
    + rewrite orb_false_l. destruct (Js.startsWith "video/" (mimetype part)) eqn:Hv.
      * split; [intros _; by right; left|done].
      * split; [done|]. intros [?|[?|[_ ?]]]; done.
Qed.

Lemma filter_rejects part :
  ¬ type_accepted part →
  videoFileFilter part =
    Reject ("Only video files are allowed. Detected type: " +:+ mimetype part +:+
            ", extension: " +:+ extension_of part).
Proof.
  intros Hn. destruct (videoFileFilter part) eqn:Hf.
  - by apply filter_accepts in Hf.
  - revert Hf. unfold videoFileFilter, extension_of.
    repeat case_match; congruence.
Qed.

End filter.

(** ** The names of stored files *)

Section stored_names.

Lemma digit_cases (n : Z) :
  n mod 10 = 0 ∨ n mod 10 = 1 ∨ n mod 10 = 2 ∨ n mod 10 = 3 ∨ n mod 10 = 4 ∨
  n mod 10 = 5 ∨ n mod 10 = 6 ∨ n mod 10 = 7 ∨ n mod 10 = 8 ∨ n mod 10 = 9.
Proof. pose proof (Z.mod_pos_bound n 10). lia. Qed.

Lemma digit_is_digit (n : Z) : Js.is_digit (Date.digit (n mod 10)) = true.
Proof.
  destruct (digit_cases n) as [H|[H|[H|[H|[H|[H|[H|[H|[H|H]]]]]]]]];
    rewrite H; reflexivity.
Qed.

Lemma all_chars_app_intro p (a b : string) :
  Js.all_chars p a = true → Js.all_chars p b = true → Js.all_chars p (a +:+ b) = true.
Proof. intros Ha Hb. by rewrite all_chars_app, Ha, Hb. Qed.

Lemma pad_chars w n : Js.all_chars iso_char (Date.pad w n) = true.
Proof.
  revert n. induction w as [|w IH]; intros n; [done|].
  change (Date.pad (S w) n) with (Date.pad w (n / 10) +:+ String (Date.digit (n mod 10)) "").
  apply all_chars_app_intro; [apply IH|].
  change (iso_char (Date.digit (n mod 10)) && true = true).
  unfold iso_char. by rewrite digit_is_digit.
Qed.

Lemma year_string_chars y : Js.all_chars iso_char (Date.year_string y) = true.
Proof.
  unfold Date.year_string. destruct (_ && _); [apply pad_chars|].
  apply all_chars_app_intro; [by destruct (y <? 0)|apply pad_chars].
Qed.

Lemma seconds_string_chars secs : Js.all_chars iso_char (Date.seconds_string secs) = true.
Proof.
  unfold Date.seconds_string.
  generalize (Date.civil_from_days (secs / 86400)). intros [[y m] d].
  generalize (secs mod 86400). intros t.
  apply all_chars_app_intro; [apply year_string_chars|].
  do 4 (apply all_chars_app_intro; [reflexivity|];
        apply all_chars_app_intro; [apply pad_chars|]).
  apply all_chars_app_intro; [reflexivity|apply pad_chars].
Qed.

Lemma toISOString_chars ms : Js.all_chars iso_char (Date.toISOString ms) = true.
Proof.
  unfold Date.toISOString.
  apply all_chars_app_intro; [apply seconds_string_chars|].
  apply all_chars_app_intro; [reflexivity|].
  apply all_chars_app_intro; [apply pad_chars|reflexivity].
Qed.

Lemma replace_unsafe_plain (c : ascii) :
  iso_char c = true →
  plain_char (if bool_decide (c = ":"%char) || bool_decide (c = "."%char) ||
                 bool_decide (c = "-"%char) then "_"%char else c) = true.
Proof.
  intros Hc. destruct (bool_decide (c = ":"%char) || _ || _) eqn:Hr; [done|].
  apply orb_false_iff in Hr as [[_ Hd]%orb_false_iff _].
  apply bool_decide_eq_false in Hd.
  unfold plain_char. rewrite (bool_decide_eq_false_2 (c = Js.dot)) by done.
  rewrite andb_true_r. apply negb_true_iff, bool_decide_eq_false. intros ->.
  by vm_compute in Hc.
Qed.

Lemma timestamp_plain now :
  Js.all_chars plain_char (replace_unsafe (Date.toISOString now)) = true.
Proof.
  pose proof (toISOString_chars now) as H. unfold replace_unsafe.
  induction (Date.toISOString now) as [|c s IH]; [done|]. simpl in *.
  apply andb_true_iff in H as [Hc Hs]. by rewrite replace_unsafe_plain, IH.
Qed.

Lemma timestamp_nonempty now : replace_unsafe (Date.toISOString now) ≠ "".
Proof.
  unfold Date.toISOString, replace_unsafe. rewrite !map_chars_app.
  intros H. apply (f_equal Js.length) in H. rewrite !slength_app in H.
  simpl in H. lia.
Qed.

Lemma from_last_dot_suffix (s e : string) :
  Path.from_last_dot s = Some e → ∃ pre r, s = pre +:+ e ∧ e = String Js.dot r ∧
    Path.from_last_dot r = None.
Proof.
  revert e. induction s as [|c s IH]; intros e; [done|]. simpl.
  destruct (Path.from_last_dot s) as [e'|] eqn:Hs.
  - intros [= <-]. destruct (IH _ eq_refl) as (pre & r & -> & -> & Hr).
    by exists (String c pre), r.
  - case_bool_decide as Hc; [|done]. intros [= <-]. subst c.
    by exists "", s.
Qed.

Lemma no_sep_app sep (a b : string) :
  no_sep sep (a +:+ b) = no_sep sep a && no_sep sep b.
Proof. apply all_chars_app. Qed.

Lemma basename_no_slash (p : string) : no_sep Js.slash (Path.basename p) = true.
Proof.
  unfold Path.basename.
  destruct (filter _ _) as [|b l] eqn:Hf; [done|].
  assert (b ∈ filter (λ a, a ≠ "") (reverse (Js.split Js.slash p))) as Hb.
  { rewrite Hf. by left. }
  apply list_elem_of_filter in Hb as [_ Hb].
  apply (proj1 (elem_of_reverse _ _)) in Hb.
  by apply split_pieces_no_sep in Hb.
Qed.

Lemma extname_no_slash (p : string) : no_sep Js.slash (Path.extname p) = true.
Proof.
  unfold Path.extname. pose proof (basename_no_slash p) as Hb.
  destruct (Path.from_last_dot (Path.basename p)) as [e|] eqn:He; [|done].
  destruct (_ || _); [done|].
  apply from_last_dot_suffix in He as (pre & r & Hs & _ & _).
  rewrite Hs, no_sep_app in Hb. by apply andb_true_iff in Hb as [_ ?].
Qed.

(** The name of a stored file is a name: the timestamp opens it, and the
    extension brings no separator. *)
Lemma stored_name_is_name now part : is_name (stored_name now part) = true.
Proof.
  unfold stored_name.
  pose proof (timestamp_plain now) as Hts. pose proof (timestamp_nonempty now) as Hne.
  pose proof (extname_no_slash (originalname part)) as Hext.
  destruct (replace_unsafe (Date.toISOString now)) as [|c ts]; [done|].
  simpl in Hts. apply andb_true_iff in Hts as [Hc Hts].
  unfold plain_char in Hc. apply andb_true_iff in Hc as [Hc1 Hc2].
  apply negb_true_iff, bool_decide_eq_false in Hc1, Hc2.
  apply is_name_spec. simpl.
  split; [done|]. split; [intros [= Hd _]; exact (Hc2 Hd)|].
  split; [intros [= Hd _]; exact (Hc2 Hd)|].
  unfold no_sep. simpl. rewrite bool_decide_eq_false_2 by done. simpl.
  fold (no_sep Js.slash (ts +:+ Path.extname (originalname part))).
  rewrite no_sep_app, Hext, andb_true_r.
  eapply all_chars_impl; [|exact Hts]. intros x Hx. unfold plain_char in Hx.
  by apply andb_true_iff in Hx as [? _].
Qed.

End stored_names.

(** ** The upload route *)

Section upload_route.

Lemma put_file_partition now s k f n :
  is_dir s k →
  partition (put_file now s k f n) k =
    <[f := {| birthtime := match partition s k !! f with
                           | Some old => birthtime old
                           | None => now
                           end;
              size := n |}]> (partition s k).
Proof.
  intros (m & es & Hk). unfold put_file, partition. rewrite Hk.
  by rewrite lookup_insert_eq.
Qed.

Lemma put_file_other now s k f n k' : k ≠ k' → put_file now s k f n !! k' = s !! k'.
Proof.
  intros Hne. unfold put_file. destruct (s !! k) as [[m|m es]|]; try done.
  by rewrite lookup_insert_ne.
Qed.

Lemma put_file_is_dir now s k f n k' : is_dir s k' → is_dir (put_file now s k f n) k'.
Proof.
  intros (m & es & Hk'). unfold put_file, is_dir.
  destruct (s !! k) as [[m0|m0 es0]|] eqn:Hk; eauto.
  destruct (decide (k = k')) as [->|Hne].
  - rewrite lookup_insert_eq. eauto.
  - rewrite lookup_insert_ne by done. eauto.
Qed.

Lemma drop_file_partition s k f : partition (drop_file s k f) k = delete f (partition s k).
Proof.
  unfold drop_file, partition. destruct (s !! k) as [[m|m es]|] eqn:Hk.
  - rewrite Hk. by rewrite delete_empty.
  - by rewrite lookup_insert_eq.
  - rewrite Hk. by rewrite delete_empty.
Qed.

Lemma drop_file_other s k f k' : k ≠ k' → drop_file s k f !! k' = s !! k'.
Proof.
  intros Hne. unfold drop_file. destruct (s !! k) as [[m|m es]|]; try done.
  by rewrite lookup_insert_ne.
Qed.

Lemma drop_file_is_dir s k f k' : is_dir s k' → is_dir (drop_file s k f) k'.
Proof.
  intros (m & es & Hk'). unfold drop_file, is_dir.
  destruct (s !! k) as [[m0|m0 es0]|] eqn:Hk; eauto.
  destruct (decide (k = k')) as [->|Hne].
  - rewrite lookup_insert_eq. eauto.
  - rewrite lookup_insert_ne by done. eauto.
Qed.

Lemma writeFile_run now s k f n :
  is_name k = true → is_name f = true → is_dir s k →
  Fs.writeFile (Path.join ["uploads/" +:+ k; f]) n now s = (Ok tt, put_file now s k f n).
Proof.
  intros Hk Hf (m & es & Hd). rewrite join_entry by done.
  erewrite writeFile_entry; [|by apply locate_entry|done].
  unfold put_file. by rewrite Hd.
Qed.

Lemma remove_run now s k f :
  is_name k = true → is_name f = true → is_dir s k →
  Fs.remove (Path.join ["uploads/" +:+ k; f]) now s = (Ok tt, drop_file s k f).
Proof.
  intros Hk Hf (m & es & Hd). rewrite join_entry by done.
  erewrite remove_entry_dir; [|by apply locate_entry|done].
  unfold drop_file. by rewrite Hd.
Qed.

Lemma filename_run user part now s :
  filename (Multer.storage upload) user part now s = (Ok (stored_name now part), s).
Proof. reflexivity. Qed.

(** multer on an accepted file of a principal whose partition can be
    made. *)
Lemma single_run user e part now s :
  email user = Some e → e ≠ "" → no_clash s (safe_email e) →
  fieldname part = "video" → originalname part ≠ "" → videoFileFilter part = Accept →
  let k := safe_email e in
  let name := stored_name now part in
  single upload "video" user (Some part) now s =
    if ceiling <? bytes part
    then (Ok (Some (MulterError "LIMIT_FILE_SIZE" "File too large"), None),
          drop_file (put_file now (ensured now s k) k name ceiling) k name)
    else (Ok (None, Some {| file_filename := name;
                            file_path := Path.join ["uploads/" +:+ k; name];
                            file_size := bytes part |}),
          put_file now (ensured now s k) k name (bytes part)).
Proof.
  intros He Hne Hclash Hfield Hname Hfilter k name.
  pose proof (safe_email_name e Hne) as Hk.
  pose proof (stored_name_is_name now part) as Hn.
  pose proof (ensured_is_dir now s k Hclash) as Hdir.
  unfold single. rewrite bool_decide_eq_false_2 by done.
  rewrite Hfield, bool_decide_eq_true_2 by done. change (negb true) with false. cbv iota.
  change (fileFilter upload part) with (videoFileFilter part). rewrite Hfilter.
  change (destination (Multer.storage upload) user part)
    with (user_email user ≫= getUserDirectory).
  rewrite run_bind, run_bind, (user_email_run _ _ _ _ He).
  rewrite getUserDirectory_ok by done.
  rewrite run_bind, filename_run. fold k name ceiling.
  destruct (ceiling <? bytes part).
  - rewrite run_bind, (run_try_ok _ _ _ _ _ (writeFile_run now _ k name ceiling Hk Hn Hdir)).
    rewrite run_bind, (run_try_ok _ _ _ _ _ (remove_run now _ k name Hk Hn
      (put_file_is_dir _ _ _ _ _ _ Hdir))).
    reflexivity.
  - rewrite run_bind, (run_try_ok _ _ _ _ _ (writeFile_run now _ k name (bytes part) Hk Hn Hdir)).
    reflexivity.
Qed.

End upload_route.

Section upload_replies.

Lemma post_upload_accepted cfg req e part now s :
  principal cfg req = Some e → e ≠ "" → no_clash s (safe_email e) →
  carries_video req part → videoFileFilter part = Accept →
  let k := safe_email e in
  let name := stored_name now part in
  post_upload cfg req now s =
    if ceiling <? bytes part
    then (Ok (json 413 (ErrorBody "File too large. Maximum size is 500MB.")),
          drop_file (put_file now (ensured now s k) k name ceiling) k name)
    else (Ok (json 200 (UploadedBody "Video uploaded successfully" name
                 (getBaseUrl cfg req +:+ "/uploads/" +:+ k +:+ "/" +:+ name)
                 (getBaseUrl cfg req +:+ "/share/" +:+ k +:+ "/" +:+ name)
                 (Date.toISOString now))),
          put_file now (ensured now s k) k name (bytes part)).
Proof.
  intros (user & Hauth & He)%principal_next Hne Hclash (Hfile & Hfield & Hname) Hfilter k name.
  unfold post_upload, authenticated. rewrite Hauth, run_bind, Hfile.
  rewrite (single_run user e part now s) by done. fold k name.
  destruct (ceiling <? bytes part); [reflexivity|].
  cbv beta iota. rewrite run_bind, (user_email_run _ _ _ _ He). reflexivity.
Qed.

Lemma post_upload_rejected cfg req e part now s :
  principal cfg req = Some e → carries_video req part → ¬ type_accepted part →
  post_upload cfg req now s =
    (Ok (json 400 (ErrorBody
       ("Only video files are allowed. Detected type: " +:+ mimetype part +:+
        ", extension: " +:+ extension_of part))), s).
Proof.
  intros (user & Hauth & He)%principal_next (Hfile & Hfield & Hname) Hn.
  unfold post_upload, authenticated. rewrite Hauth, run_bind, Hfile.
  unfold single. rewrite bool_decide_eq_false_2 by done.
  rewrite Hfield, bool_decide_eq_true_2 by done. change (negb true) with false.
  cbv iota. change (fileFilter upload part) with (videoFileFilter part).
  by rewrite filter_rejects.
Qed.

End upload_replies.


(** C3: an authenticated upload of an admissible file whose stream is
    longer than the ceiling of 500 MiB is answered with 413, and afterwards
    the caller's partition holds nothing it did not hold before: the file
    written up to the ceiling is gone, and all other partitions are as they
    were. *)
Theorem oversized_upload_discarded cfg req e part now s :
  principal cfg req = Some e → e ≠ "" → no_clash s (safe_email e) →
  carries_video req part → videoFileFilter part = Accept →
  ceiling < bytes part →
  ceiling = 500 * 1024 * 1024 ∧
  ∃ s', post_upload cfg req now s =
          (Ok (json 413 (ErrorBody "File too large. Maximum size is 500MB.")), s') ∧
    partition s' (safe_email e) !! stored_name now part = None ∧
    partition s' (safe_email e) ⊆ partition s (safe_email e) ∧
    ∀ k, k ≠ safe_email e → s' !! k = s !! k.
Proof.
  intros Hp Hne Hclash Hc Hf Hbig. split; [done|].
  rewrite (post_upload_accepted cfg req e part now s) by done.
  apply Z.ltb_lt in Hbig. rewrite Hbig. eexists. split; [done|].
  pose proof (ensured_is_dir now s _ Hclash) as Hdir.
  rewrite drop_file_partition, put_file_partition, partition_ensured by done.
  rewrite delete_insert_eq. split; [apply lookup_delete_eq|]. split; [apply delete_subseteq|].
  intros k Hk. by rewrite drop_file_other, put_file_other, ensured_other.
Qed.

(** ** Two uploads within one second *)

Section same_second.

Lemma pad3 n :
  Date.pad 3 n =
    String (Date.digit (n / 10 / 10 mod 10))
      (String (Date.digit (n / 10 mod 10)) (String (Date.digit (n mod 10)) "")).
Proof. reflexivity. Qed.

Lemma replace_digit_inj (x y : Z) :
  (if bool_decide (Date.digit (x mod 10) = ":"%char) ||
      bool_decide (Date.digit (x mod 10) = "."%char) ||
      bool_decide (Date.digit (x mod 10) = "-"%char)
   then "_"%char else Date.digit (x mod 10)) =
  (if bool_decide (Date.digit (y mod 10) = ":"%char) ||
      bool_decide (Date.digit (y mod 10) = "."%char) ||
      bool_decide (Date.digit (y mod 10) = "-"%char)
   then "_"%char else Date.digit (y mod 10)) →
  x mod 10 = y mod 10.
Proof.
  destruct (digit_cases x) as [H|[H|[H|[H|[H|[H|[H|[H|[H|H]]]]]]]]];
  destruct (digit_cases y) as [H'|[H'|[H'|[H'|[H'|[H'|[H'|[H'|[H'|H']]]]]]]]];
    rewrite H, H'; vm_compute; congruence.
Qed.

Lemma three_digits (a b : Z) :
  0 ≤ a < 1000 → 0 ≤ b < 1000 →
  a / 10 / 10 mod 10 = b / 10 / 10 mod 10 →
  a / 10 mod 10 = b / 10 mod 10 → a mod 10 = b mod 10 → a = b.
Proof.
  intros Ha Hb H2 H1 H0.
  pose proof (Z.div_mod a 10 ltac:(lia)). pose proof (Z.div_mod b 10 ltac:(lia)).
  pose proof (Z.div_mod (a / 10) 10 ltac:(lia)). pose proof (Z.div_mod (b / 10) 10 ltac:(lia)).
  assert (0 ≤ a / 10 / 10 < 10) as Ha2.
  { split; [apply Z.div_pos; [apply Z.div_pos|]; lia|].
    apply Z.div_lt_upper_bound; [lia|]. apply Z.div_lt_upper_bound; lia. }
  assert (0 ≤ b / 10 / 10 < 10) as Hb2.
  { split; [apply Z.div_pos; [apply Z.div_pos|]; lia|].
    apply Z.div_lt_upper_bound; [lia|]. apply Z.div_lt_upper_bound; lia. }
  rewrite (Z.mod_small (a / 10 / 10)) in H2 by lia.
  rewrite (Z.mod_small (b / 10 / 10)) in H2 by lia.
  lia.
Qed.

Lemma string_cons_inj a b (x y : string) : String a x = String b y → a = b ∧ x = y.
Proof. by intros [= -> ->]. Qed.

Lemma map_chars_cons f c (s : string) :
  Js.map_chars f (String c s) = String (f c) (Js.map_chars f s).
Proof. reflexivity. Qed.

(** The stored name splits into what the second fixes, the three digits of
    the millisecond, and the extension. *)
Lemma stored_name_parts now part :
  stored_name now part =
    replace_unsafe (Date.seconds_string (now / 1000)) +:+
    String "_"%char (replace_unsafe (Date.pad 3 (now mod 1000)) +:+
      String "Z"%char (Path.extname (originalname part))).
Proof.
  unfold stored_name, Date.toISOString, replace_unsafe.
  rewrite !map_chars_app, !sapp_assoc. reflexivity.
Qed.

(** Within one second, two uploads get the same name exactly when they
    fall into the same millisecond and their original names have the same
    extension. *)
Lemma same_second_names t1 t2 p1 p2 :
  t1 / 1000 = t2 / 1000 →
  stored_name t1 p1 = stored_name t2 p2 ↔
    t1 mod 1000 = t2 mod 1000 ∧
    Path.extname (originalname p1) = Path.extname (originalname p2).
Proof.
  intros Hsec. rewrite !stored_name_parts, Hsec. split.
  - intros H. apply String.app_inj in H. apply string_cons_inj in H as [_ H].
    rewrite !pad3 in H. unfold replace_unsafe in H.
    rewrite !map_chars_cons, !sapp_cons in H. change (Js.map_chars _ "") with "" in H.
    rewrite !sapp_nil in H.
    apply string_cons_inj in H as [H2 H]. apply string_cons_inj in H as [H1 H].
    apply string_cons_inj in H as [H0 H]. apply string_cons_inj in H as [_ Hext].
    apply replace_digit_inj in H2, H1, H0. split; [|done].
    apply three_digits; try done; apply Z.mod_pos_bound; lia.
  - by intros [-> ->].
Qed.

End same_second.

(** C5, counterexample: two uploads of one user in the same millisecond,
    both named [*.mp4], get the same stored name; after the second the
    partition holds a single file, with the bytes of the second. *)
Lemma same_millisecond_collides :
  let first := video_part "holiday.mp4" "video/mp4" 1000 in
  let second := video_part "birthday.mp4" "video/mp4" 2000 in
  let s1 := (post_upload provider_cfg (request_with "alice-token" (Some first)) noon ∅).2 in
  let s2 := (post_upload provider_cfg (request_with "alice-token" (Some second)) noon s1).2 in
  noon / 1000 = noon / 1000 ∧
  ¬ (stored_name noon first ≠ stored_name noon second) ∧
  partition s2 "alice_example_com" =
    {[ "2024_02_29T12_34_56_789Z.mp4" := {| birthtime := noon; size := 2000 |} ]}.
Proof.
  split; [done|]. split; [intros H; by apply H|]. by vm_compute.
Qed.

(** C5, amended: two uploads of one user within the same wall-clock
    second that fall into different milliseconds, or whose original names
    differ in their extension, are stored under different names, and both
    files are in the partition afterwards, the first one as the first
    upload left it.  Both files pass the filter and stay under the
    ceiling. *)
Theorem same_second_uploads_distinct cfg req1 req2 e p1 p2 t1 t2 s :
  principal cfg req1 = Some e → principal cfg req2 = Some e → e ≠ "" →
  no_clash s (safe_email e) →
  carries_video req1 p1 → videoFileFilter p1 = Accept → bytes p1 < ceiling →
  carries_video req2 p2 → videoFileFilter p2 = Accept → bytes p2 < ceiling →
  t1 / 1000 = t2 / 1000 →
  t1 mod 1000 ≠ t2 mod 1000 ∨
    Path.extname (originalname p1) ≠ Path.extname (originalname p2) →
  ∃ r1 s1 r2 s2,
    post_upload cfg req1 t1 s = (Ok r1, s1) ∧ status r1 = 200 ∧
    post_upload cfg req2 t2 s1 = (Ok r2, s2) ∧ status r2 = 200 ∧
    stored_name t1 p1 ≠ stored_name t2 p2 ∧
    is_Some (partition s1 (safe_email e) !! stored_name t1 p1) ∧
    partition s2 (safe_email e) !! stored_name t1 p1 =
      partition s1 (safe_email e) !! stored_name t1 p1 ∧
    (size <$> partition s2 (safe_email e) !! stored_name t2 p2) = Some (bytes p2).
Proof.
  intros Hp1 Hp2 Hne Hclash Hc1 Hf1 Hb1 Hc2 Hf2 Hb2 Hsec Hdiff.
  set (k := safe_email e).
  assert (stored_name t1 p1 ≠ stored_name t2 p2) as Hnames.
  { intros [Hms Hext]%same_second_names; [|done]. destruct Hdiff; done. }
  pose proof (ensured_is_dir t1 s k Hclash) as Hdir.
  assert (is_dir (put_file t1 (ensured t1 s k) k (stored_name t1 p1) (bytes p1)) k) as Hdir1
    by by apply put_file_is_dir.
  assert (no_clash (put_file t1 (ensured t1 s k) k (stored_name t1 p1) (bytes p1)) k) as Hclash1.
  { destruct Hdir1 as (m & es & Hk). intros m'. by rewrite Hk. }
  rewrite (post_upload_accepted cfg req1 e p1 t1 s) by done.
  apply Z.lt_le_incl, Z.ltb_ge in Hb1. rewrite Hb1. fold k.
  do 2 eexists.
  rewrite (post_upload_accepted cfg req2 e p2 t2 _) by done.
  apply Z.lt_le_incl, Z.ltb_ge in Hb2. rewrite Hb2. fold k.
  do 2 eexists. split; [done|]. split; [done|]. split; [done|]. split; [done|].
  split; [done|].
  rewrite (ensured_id t2) by (destruct Hdir1 as (? & ? & ->); eauto).
  rewrite !put_file_partition by done.
  split; [by rewrite lookup_insert_eq|].
  split; [by rewrite lookup_insert_ne|].
  by rewrite lookup_insert_eq.
Qed.

(** ** Extensions of stored names *)

Section extensions.


Lemma from_last_dot_app_plain (t x : string) :
  no_sep Js.dot t = true → Path.from_last_dot (t +:+ x) = Path.from_last_dot x.
Proof.
  unfold no_sep. induction t as [|c t IH]; [done|]. simpl.
  intros [Hc Ht]%andb_true_iff. rewrite IH by done.
  apply negb_true_iff in Hc. rewrite Hc. by destruct (Path.from_last_dot x).
Qed.

Lemma from_last_dot_self (r : string) :
  Path.from_last_dot r = None →
  Path.from_last_dot (String Js.dot r) = Some (String Js.dot r).
Proof. intros Hr. simpl. by rewrite Hr. Qed.

(** An extension is empty, or a dot followed by characters that are no
    dots. *)
Lemma extname_shape (p : string) :
  Path.extname p = "" ∨
  ∃ r, Path.extname p = String Js.dot r ∧ Path.from_last_dot r = None.
Proof.
  unfold Path.extname.
  destruct (Path.from_last_dot (Path.basename p)) as [e|] eqn:He; [|by left].
  destruct (_ || _); [by left|].
  apply from_last_dot_suffix in He as (pre & r & _ & -> & Hr). right. eauto.
Qed.

Lemma basename_plain (x : string) :
  x ≠ "" → no_sep Js.slash x = true → Path.basename x = x.
Proof.
  intros Hne Hx. unfold Path.basename. rewrite split_no_sep by done.
  change (reverse [x]) with [x]. by rewrite filter_cons_True.
Qed.

Lemma plain_no_slash (t : string) :
  Js.all_chars plain_char t = true → no_sep Js.slash t = true.
Proof.
  apply all_chars_impl. intros c Hc. unfold plain_char in Hc.
  by apply andb_true_iff in Hc as [? _].
Qed.

Lemma plain_no_dot (t : string) :
  Js.all_chars plain_char t = true → no_sep Js.dot t = true.
Proof.
  apply all_chars_impl. intros c Hc. unfold plain_char in Hc.
  by apply andb_true_iff in Hc as [_ ?].
Qed.

(** A stored name has the extension of the original name. *)
Lemma extname_stored now part :
  Path.extname (stored_name now part) = Path.extname (originalname part).
Proof.
  pose proof (stored_name_is_name now part) as Hname.
  apply is_name_spec in Hname as (Hne & _ & Hdd & Hslash).
  pose proof (timestamp_plain now) as Hts. pose proof (timestamp_nonempty now) as Htne.
  unfold Path.extname at 1. rewrite basename_plain by done.
  rewrite bool_decide_eq_false_2 with (P := stored_name now part = "..") by done.
  unfold stored_name in *.
  rewrite from_last_dot_app_plain by by apply plain_no_dot.
  destruct (extname_shape (originalname part)) as [->|(r & -> & Hr)]; [done|].
  rewrite from_last_dot_self by done. rewrite orb_false_r.
  rewrite bool_decide_eq_false_2; [done|].
  intros H. apply (f_equal Js.length) in H. rewrite slength_app in H.
  destruct (replace_unsafe (Date.toISOString now)); [done|]. simpl in H. lia.
Qed.

Lemma lower_char_keeps (c : ascii) :
  bool_decide (Js.lower_char c = Js.slash) = bool_decide (c = Js.slash) ∧
  bool_decide (Js.lower_char c = Js.dot) = bool_decide (c = Js.dot).
Proof. destruct c as [[] [] [] [] [] [] [] []]; by vm_compute. Qed.

Section mapped.

Variable f : ascii → ascii.
Hypothesis f_slash : ∀ c, bool_decide (f c = Js.slash) = bool_decide (c = Js.slash).
Hypothesis f_dot : ∀ c, bool_decide (f c = Js.dot) = bool_decide (c = Js.dot).

Lemma map_chars_empty (s : string) : Js.map_chars f s = "" ↔ s = "".
Proof. by destruct s. Qed.

Lemma split_map (s : string) :
  Js.split Js.slash (Js.map_chars f s) = Js.map_chars f <$> Js.split Js.slash s.
Proof.
  induction s as [|c s IH]; [done|]. simpl. rewrite f_slash, IH.
  destruct (bool_decide (c = Js.slash)); [done|].
  by destruct (Js.split Js.slash s).
Qed.

Lemma filter_nonempty_map (l : list string) :
  filter (λ a, a ≠ "") (Js.map_chars f <$> l) =
    Js.map_chars f <$> filter (λ a, a ≠ "") l.
Proof.
  induction l as [|x l IH]; [done|]. rewrite fmap_cons.
  destruct (decide (x = "")) as [->|Hx].
  - rewrite !filter_cons_False by (simpl; naive_solver). done.
  - rewrite !filter_cons_True; [|done|by rewrite map_chars_empty].
    by rewrite fmap_cons, IH.
Qed.

Lemma basename_map (p : string) :
  Path.basename (Js.map_chars f p) = Js.map_chars f (Path.basename p).
Proof.
  unfold Path.basename. rewrite split_map, <-fmap_reverse, filter_nonempty_map.
  by destruct (filter _ _).
Qed.

Lemma from_last_dot_map (s : string) :
  Path.from_last_dot (Js.map_chars f s) = Js.map_chars f <$> Path.from_last_dot s.
Proof.
  induction s as [|c s IH]; [done|]. simpl. rewrite IH, f_dot.
  destruct (Path.from_last_dot s); [done|]. by destruct (bool_decide (c = Js.dot)).
Qed.

Lemma map_chars_dotdot (b : string) : Js.map_chars f b = ".." ↔ b = "..".
Proof.
  split; [|intros ->; simpl].
  - destruct b as [|c1 [|c2 [|c3 b]]]; try done. simpl. intros [= H1 H2].
    assert (bool_decide (f c1 = Js.dot) = true) as H1' by by apply bool_decide_eq_true.
    assert (bool_decide (f c2 = Js.dot) = true) as H2' by by apply bool_decide_eq_true.
    rewrite f_dot in H1', H2'. apply bool_decide_eq_true in H1', H2'. by subst.
  - assert (f Js.dot = Js.dot) as Hd.
    { eapply bool_decide_eq_true_1. rewrite f_dot. by apply bool_decide_eq_true_2. }
    unfold Js.dot in Hd. by rewrite Hd.
Qed.

Lemma extname_map (p : string) :
  Path.extname (Js.map_chars f p) = Js.map_chars f (Path.extname p).
Proof.
  unfold Path.extname. rewrite basename_map, from_last_dot_map.
  destruct (Path.from_last_dot (Path.basename p)) as [e|] eqn:He; [|done]. simpl.
  apply from_last_dot_suffix in He as (pre & r & Hb & _ & _).
  assert (bool_decide (Js.map_chars f e = Js.map_chars f (Path.basename p)) =
          bool_decide (e = Path.basename p)) as ->.
  { apply bool_decide_ext. split; [|by intros <-]. rewrite Hb.
    intros H. apply (f_equal Js.length) in H.
    rewrite !length_map_chars, slength_app in H.
    destruct pre; [done|]. simpl in H. lia. }
  assert (bool_decide (Js.map_chars f (Path.basename p) = "..") =
          bool_decide (Path.basename p = "..")) as ->.
  { apply bool_decide_ext, map_chars_dotdot. }
  by destruct (_ || _).
Qed.

End mapped.

(** Lower-casing before or after taking the extension is the same. *)
Lemma extname_lower (p : string) :
  Path.extname (Js.toLowerCase p) = Js.toLowerCase (Path.extname p).
Proof. apply extname_map; intros c; apply lower_char_keeps. Qed.

(** The filter and the catalog agree on what an allow-listed name is. *)
Lemma listed_stored now part :
  listed (stored_name now part) ↔ extension_of part ∈ allowedExtensions.
Proof. unfold listed, extension_of. by rewrite extname_stored, extname_lower. Qed.

End extensions.

(** ** What a successful upload leaves *)

Section upload_success.

(** A reply of 200 comes only from an accepted file that fitted under the
    ceiling. *)
Lemma post_upload_success cfg req e now s r s' :
  principal cfg req = Some e → e ≠ "" →
  post_upload cfg req now s = (Ok r, s') → status r = 200 →
  ∃ part, carries_video req part ∧ videoFileFilter part = Accept ∧
    bytes part ≤ ceiling ∧ no_clash s (safe_email e) ∧
    s' = put_file now (ensured now s (safe_email e)) (safe_email e)
           (stored_name now part) (bytes part).
Proof.
  intros Hp Hne Hrun Hr.
  pose proof Hp as (user & Hauth & He)%principal_next.
  destruct (file req) as [part|] eqn:Hfile; cycle 1.
  { revert Hrun. unfold post_upload, authenticated. rewrite Hauth, run_bind, Hfile.
    intros [= <- <-]. done. }
  destruct (decide (originalname part = "")) as [Hname|Hname].
  { revert Hrun. unfold post_upload, authenticated. rewrite Hauth, run_bind, Hfile.
    unfold single. rewrite bool_decide_eq_true_2 by done. intros [= <- <-]. done. }
  destruct (decide (fieldname part = "video")) as [Hfield|Hfield]; cycle 1.
  { revert Hrun. unfold post_upload, authenticated. rewrite Hauth, run_bind, Hfile.
    unfold single. rewrite bool_decide_eq_false_2 by done.
    rewrite bool_decide_eq_false_2 by done. change (negb false) with true. cbv iota.
    intros [= <- <-]. done. }
  assert (carries_video req part) as Hc by done.
  destruct (videoFileFilter part) as [|message] eqn:Hfilter; cycle 1.
  { assert (¬ type_accepted part) as Hn.
    { intros ?%filter_accepts. congruence. }
    rewrite (post_upload_rejected cfg req e part now s Hp Hc Hn) in Hrun.
    injection Hrun as <- <-. done. }
  destruct (s !! safe_email e) as [[m|m es]|] eqn:Hk.
  { revert Hrun. unfold post_upload, authenticated. rewrite Hauth, run_bind, Hfile.
    unfold single. rewrite bool_decide_eq_false_2 by done.
    rewrite Hfield, bool_decide_eq_true_2 by done. change (negb true) with false.
    cbv iota. change (fileFilter upload part) with (videoFileFilter part).
    rewrite Hfilter.
    change (destination (Multer.storage upload) user part)
      with (user_email user ≫= getUserDirectory).
    rewrite run_bind, run_bind, (user_email_run _ _ _ _ He).
    rewrite getUserDirectory_run, Hk by done. done. }
  all: assert (no_clash s (safe_email e)) as Hclash by (intros m'; by rewrite Hk).
  all: rewrite (post_upload_accepted cfg req e part now s) in Hrun by done.
  all: destruct (ceiling <? bytes part) eqn:Hsize;
         [injection Hrun as <- <-; done|].
  all: apply Z.ltb_ge in Hsize; injection Hrun as <- <-; eauto 10.
Qed.

End upload_success.

(** C6, counterexample: an upload named [notes.txt] and declared as
    [video/mp4] is accepted and stored, and the stored file has the
    extension [.txt], which is not allow-listed. *)
Lemma unlisted_extension_stored :
  let part := video_part "notes.txt" "video/mp4" 1000 in
  let run := post_upload provider_cfg (request_with "alice-token" (Some part)) noon ∅ in
  (status <$> (match run.1 with Ok r => Some r | _ => None end)) = Some 200 ∧
  is_Some (partition run.2 "alice_example_com" !! "2024_02_29T12_34_56_789Z.txt") ∧
  ¬ listed "2024_02_29T12_34_56_789Z.txt".
Proof.
  split; [by vm_compute|]. split.
  - exists {| birthtime := noon; size := 1000 |}. by vm_compute.
  - unfold listed. apply (bool_decide_eq_false_1 _). by vm_compute.
Qed.

(** C6, amended: the file a successful upload leaves in the caller's
    partition bears the extension of the original file name, and that
    extension, lower-cased, is allow-listed unless the upload was admitted
    for a declared content type that starts with [video/]. *)
Theorem stored_extension cfg req e now s r s' :
  principal cfg req = Some e → e ≠ "" →
  post_upload cfg req now s = (Ok r, s') → status r = 200 →
  ∃ part, file req = Some part ∧
    is_Some (partition s' (safe_email e) !! stored_name now part) ∧
    Path.extname (stored_name now part) = Path.extname (originalname part) ∧
    (listed (stored_name now part) ∨ Js.startsWith "video/" (mimetype part) = true).
Proof.
  intros Hp Hne Hrun Hr.
  destruct (post_upload_success _ _ _ _ _ _ _ Hp Hne Hrun Hr)
    as (part & Hc & Hf & _ & Hclash & ->).
  exists part. split; [apply Hc|]. split.
  - rewrite put_file_partition by by apply ensured_is_dir.
    rewrite lookup_insert_eq. eauto.
  - split; [apply extname_stored|].
    apply filter_accepts in Hf as [H|[H|[_ H]]]; [left|by right|left];
      by apply listed_stored.
Qed.

(** ** Sorting *)

Section sorting.

Context {A : Type} (key : A → Z).

Lemma insert_by_perm (x : A) (l : list A) :
  insert_by (λ a b, key b - key a) x l ≡ₚ x :: l.
Proof.
  induction l as [|y l IH]; [done|]. simpl.
  destruct (key y - key x <=? 0); [done|]. by rewrite IH, Permutation_swap.
Qed.

Lemma sort_by_perm (l : list A) : sort_by (λ a b, key b - key a) l ≡ₚ l.
Proof.
  unfold sort_by. induction l as [|x l IH]; [done|]. simpl.
  by rewrite insert_by_perm, IH.
Qed.



End sorting.

(** ** The catalog *)

Section catalog.

Lemma mapM_run {A B} (f : A → M B) (g : A → B) (l : list A) now s :
  (∀ x, x ∈ l → f x now s = (Ok (g x), s)) →
  mapM f l now s = (Ok (g <$> l), s).
Proof.
  induction l as [|x l IH]; intros Hf; [done|].
  change (mapM f (x :: l)) with (y ← f x; k ← mapM f l; mret (y :: k)).
  rewrite run_bind, Hf by by left.
  rewrite run_bind, IH; [done|]. intros y Hy. apply Hf. by right.
Qed.

Lemma entries_of_listing cfg req key (es : gmap string meta) (l : list (string * meta)) :
  (∀ fm, fm ∈ l → es !! fm.1 = Some fm.2) →
  entry_of cfg req key es <$>
    filter (λ file, Js.includes allowedExtensions
                      (Js.toLowerCase (Path.extname file)) = true) l.*1 =
  summary cfg req key <$> filter (λ fm, listed fm.1) l.
Proof.
  induction l as [|[f m] l IH]; intros Hl; [done|].
  rewrite fmap_cons. simpl.
  specialize (IH (λ fm H, Hl fm (list_elem_of_further _ _ _ H))).
  pose proof (Hl (f, m) (list_elem_of_here _ _)) as Hf. simpl in Hf.
  destruct (decide (listed f)) as [Hyes|Hno].
  - rewrite !filter_cons_True; [|done|by apply includes_true].
    rewrite !fmap_cons, IH. f_equal. unfold entry_of. by rewrite Hf.
  - rewrite !filter_cons_False; [done|done|]. by rewrite includes_true.
Qed.

Lemma get_videos_run cfg req e now s :
  principal cfg req = Some e → e ≠ "" → no_clash s (safe_email e) → wf_store s →
  get_videos cfg req now s =
    (Ok (json 200 (VideosBody
       (sort_by (λ a b, uploadTime b - uploadTime a)
          (summary cfg req (safe_email e) <$>
             filter (λ fm, listed fm.1) (map_to_list (partition s (safe_email e))))))),
     ensured now s (safe_email e)).
Proof.
  intros (user & Hauth & He)%principal_next Hne Hclash Hwf.
  set (k := safe_email e). pose proof (safe_email_name e Hne) as Hk.
  destruct (ensured_lookup now s k Hclash) as (m & Hdir).
  unfold get_videos, authenticated. rewrite Hauth.
  rewrite run_bind, (user_email_run _ _ _ _ He).
  rewrite run_bind, getUserDirectory_ok by done. fold k.
  rewrite run_bind.
  rewrite (run_try_ok _ _ _ (map_to_list (partition s k)).*1 (ensured now s k)); cycle 1.
  { rewrite (readdir_top _ k false) by by apply locate_partition. by rewrite Hdir. }
  cbv iota. rewrite run_bind.
  erewrite (mapM_run _ (entry_of cfg req k (partition s k))); cycle 1.
  { intros f [_ Hf]%list_elem_of_filter.
    apply list_elem_of_fmap in Hf as ([f' x] & -> & Hfx). simpl.
    apply elem_of_map_to_list in Hfx.
    pose proof (wf_store_file _ _ _ _ Hwf Hfx) as Hname.
    rewrite run_bind, join_entry by done.
    rewrite (stat_entry _ k f') by by apply locate_entry.
    rewrite partition_ensured, Hfx. unfold entry_of. by rewrite Hfx. }
  rewrite entries_of_listing; [done|].
  intros [f x] Hfx. by apply elem_of_map_to_list in Hfx.
Qed.

End catalog.


(** ** The delete route *)

Section delete_route.

Lemma delete_video_name cfg req e filename now s :
  principal cfg req = Some e → e ≠ "" → no_clash s (safe_email e) →
  is_name filename = true →
  delete_video cfg req filename now s =
    if bool_decide (is_Some (partition s (safe_email e) !! filename))
    then (Ok (json 200 (MessageBody "Video deleted successfully")),
          drop_file (ensured now s (safe_email e)) (safe_email e) filename)
    else (Ok (json 404 (ErrorBody "Video not found")), ensured now s (safe_email e)).
Proof.
  intros (user & Hauth & He)%principal_next Hne Hclash Hname.
  set (k := safe_email e). pose proof (safe_email_name e Hne) as Hk.
  unfold delete_video, authenticated. rewrite Hauth.
  rewrite run_bind, (user_email_run _ _ _ _ He).
  rewrite run_bind, getUserDirectory_ok by done. fold k.
  rewrite run_bind, join_entry by done.
  rewrite (existsSync_entry _ k filename) by by apply locate_entry.
  rewrite partition_ensured.
  destruct (bool_decide (is_Some (partition s k !! filename))); [|done].
  change (negb true) with false. cbv iota.
  rewrite run_bind. rewrite <-(join_entry k filename) by done.
  by rewrite (run_try_ok _ _ _ _ _
    (remove_run now _ k filename Hk Hname (ensured_is_dir now s k Hclash))).
Qed.

(** Deleting a name the partition does not hold: 404, and nothing
    changes but the partition directory being made. *)
Lemma delete_missing_name cfg req e filename now s :
  principal cfg req = Some e → e ≠ "" → no_clash s (safe_email e) →
  is_name filename = true → partition s (safe_email e) !! filename = None →
  delete_video cfg req filename now s =
    (Ok (json 404 (ErrorBody "Video not found")), ensured now s (safe_email e)).
Proof.
  intros Hp Hne Hclash Hname Hnone.
  rewrite (delete_video_name cfg req e) by done.
  rewrite bool_decide_eq_false_2; [done|]. rewrite Hnone. by intros [? ?].
Qed.

(** Deleting a file of the partition: 200, and the next catalog does not
    show it. *)
Lemma delete_existing_name cfg req e filename now s now' :
  principal cfg req = Some e → e ≠ "" → no_clash s (safe_email e) → wf_store s →
  is_Some (partition s (safe_email e) !! filename) →
  ∃ s' videos,
    delete_video cfg req filename now s =
      (Ok (json 200 (MessageBody "Video deleted successfully")), s') ∧
    partition s' (safe_email e) = delete filename (partition s (safe_email e)) ∧
    get_videos cfg req now' s' = (Ok (json 200 (VideosBody videos)), s') ∧
    ∀ v, v ∈ videos → v_filename v ≠ filename.
Proof.
  intros Hp Hne Hclash Hwf Hsome. set (k := safe_email e).
  assert (is_name filename = true) as Hname.
  { destruct Hsome as [x Hx]. by eapply wf_store_file. }
  pose proof (ensured_is_dir now s k Hclash) as Hdir.
  pose proof (drop_file_is_dir _ k filename k Hdir) as Hdir'.
  assert (partition (drop_file (ensured now s k) k filename) k =
          delete filename (partition s k)) as Hpart
    by by rewrite drop_file_partition, partition_ensured.
  assert (wf_store (drop_file (ensured now s k) k filename)) as Hwf'.
  { pose proof (wf_store_ensured now s k (safe_email_name e Hne) Hwf) as Hwf1.
    unfold drop_file. destruct (ensured now s k !! k) as [[m|m es]|] eqn:Hk; try done.
    apply map_Forall_insert_2; [|done]. destruct (Hwf1 k _ Hk) as [? Hes].
    split; [done|]. intros f x [_ Hf]%lookup_delete_Some. by apply (Hes f x). }
  do 2 eexists. split.
  { rewrite (delete_video_name cfg req e) by done. fold k.
    by rewrite bool_decide_eq_true_2. }
  split; [done|]. split.
  { rewrite (get_videos_run cfg req e); [|done|done| |done].
    - fold k. rewrite (ensured_id now'); [done|]. destruct Hdir' as (? & ? & ->). eauto.
    - destruct Hdir' as (m & es & Hk). intros m'. fold k. by rewrite Hk. }
  intros v Hv. fold k in Hv. rewrite sort_by_perm, Hpart in Hv.
  apply list_elem_of_fmap in Hv as ([f x] & -> & Hfx).
  apply list_elem_of_filter in Hfx as [_ Hfx]. apply elem_of_map_to_list in Hfx.
  simpl. intros ->. by rewrite lookup_delete_eq in Hfx.
Qed.

End delete_route.

(** C9, the failing input: Alice asks to delete
    [../bob_example_com/clip.mp4].  Her partition holds no such name, yet
    the reply is 200 and Bob's clip is gone. *)
Theorem delete_escapes_partition :
  let s := bob_store 0 in
  let run := delete_video provider_cfg (request_with "alice-token" None)
               "../bob_example_com/clip.mp4" noon s in
  principal provider_cfg (request_with "alice-token" None) = Some "alice@example.com" ∧
  partition s "alice_example_com" !! "../bob_example_com/clip.mp4" = None ∧
  partition s "bob_example_com" !! "clip.mp4" = Some {| birthtime := 0; size := 1000 |} ∧
  run.1 = Ok (json 200 (MessageBody "Video deleted successfully")) ∧
  partition run.2 "bob_example_com" !! "clip.mp4" = None.
Proof. repeat split; by vm_compute. Qed.

(** C10, counterexample: an authenticated upload that the file filter
    refuses leaves the store without a partition for the caller. *)
Lemma refused_upload_makes_no_partition :
  let part := video_part "notes.txt" "text/plain" 1000 in
  let run := post_upload provider_cfg (request_with "alice-token" (Some part)) noon ∅ in
  principal provider_cfg (request_with "alice-token" (Some part)) = Some "alice@example.com" ∧
  (status <$> (match run.1 with Ok r => Some r | _ => None end)) = Some 400 ∧
  ¬ is_dir run.2 "alice_example_com".
Proof.
  split; [by vm_compute|]. split; [by vm_compute|].
  intros (m & es & H). by vm_compute in H.
Qed.

(** C10, amended: the catalog and the deletion of a file name make the
    caller's partition before anything else, and an upload makes it once its
    file has passed the filter.  So for a principal without a partition the
    catalog answers 200 with the empty list and such a deletion answers 404;
    and after a catalog read, such a deletion, or an upload whose file passed
    the filter, the partition directory is there. *)
Theorem partition_made_on_use cfg req e now s :
  principal cfg req = Some e → e ≠ "" → no_clash s (safe_email e) → wf_store s →
  (∃ r s', get_videos cfg req now s = (Ok r, s') ∧ status r = 200 ∧
     is_dir s' (safe_email e) ∧
     (s !! safe_email e = None → content r = VideosBody [])) ∧
  (∀ filename, is_name filename = true →
     ∃ r s', delete_video cfg req filename now s = (Ok r, s') ∧
       is_dir s' (safe_email e) ∧
       (s !! safe_email e = None → r = json 404 (ErrorBody "Video not found"))) ∧
  (∀ part, carries_video req part → videoFileFilter part = Accept →
     ∃ r s', post_upload cfg req now s = (Ok r, s') ∧ is_dir s' (safe_email e)).
Proof.
  intros Hp Hne Hclash Hwf. set (k := safe_email e).
  pose proof (ensured_is_dir now s k Hclash) as Hdir.
  split; [|split].
  - do 2 eexists. split; [by apply get_videos_run|]. split; [done|]. split; [done|].
    intros Hnone. simpl. fold k. unfold partition. rewrite Hnone.
    by rewrite map_to_list_empty.
  - intros filename Hname. rewrite (delete_video_name cfg req e) by done. fold k.
    destruct (bool_decide (is_Some (partition s k !! filename))) eqn:Hsome.
    + do 2 eexists. split; [done|]. split; [by apply drop_file_is_dir|].
      intros Hnone. apply bool_decide_eq_true in Hsome as [x Hx].
      unfold partition in Hx. by rewrite Hnone in Hx.
    + do 2 eexists. split; [done|]. split; done.
  - intros part Hc Hf. rewrite (post_upload_accepted cfg req e part) by done. fold k.
    destruct (ceiling <? bytes part); do 2 eexists; (split; [done|]).
    + by apply drop_file_is_dir, put_file_is_dir.
    + by apply put_file_is_dir.
Qed.

(** ** The cleanup job *)

Section cleanup_job.

Lemma forEach_run {A} (f : A → M unit) (step : A → store → store)
    (inv : store → Prop) (l : list A) now s :
  (∀ x s, x ∈ l → inv s → f x now s = (Ok tt, step x s) ∧ inv (step x s)) →
  inv s →
  forEach l f now s = (Ok tt, foldl (λ s x, step x s) s l) ∧
  inv (foldl (λ s x, step x s) s l).
Proof.
  revert s. induction l as [|x l IH]; intros s Hf Hs; [done|].
  destruct (Hf x s ltac:(by left) Hs) as [Hx Hs'].
  change (forEach (x :: l) f) with (f x;; forEach l f).
  rewrite run_bind, Hx. simpl. apply IH; [|done].
  intros y s' Hy. apply Hf. by right.
Qed.

Lemma expire_file_lookup now f es f' :
  expire_file now f es !! f' =
    match es !! f' with
    | Some x => if decide (f' = f ∧ expired now x) then None else Some x
    | None => None
    end.
Proof.
  unfold expire_file. destruct (decide (f' = f)) as [->|Hne].
  - destruct (es !! f) as [x|] eqn:Hf; [|by rewrite Hf].
    destruct (decide (expired now x)).
    + rewrite lookup_delete_eq. by rewrite decide_True.
    + rewrite Hf. by rewrite decide_False by tauto.
  - destruct (es !! f) as [x|] eqn:Hf.
    + destruct (decide (expired now x)); rewrite ?lookup_delete_ne by done;
        destruct (es !! f'); try done; by rewrite decide_False by tauto.
    + destruct (es !! f'); try done; by rewrite decide_False by tauto.
Qed.

Lemma expire_files_lookup now (l : list string) es f' :
  foldl (λ es f, expire_file now f es) es l !! f' =
    match es !! f' with
    | Some x => if decide (f' ∈ l ∧ expired now x) then None else Some x
    | None => None
    end.
Proof.
  revert es. induction l as [|f l IH]; intros es; cbn [foldl].
  - destruct (es !! f'); [|done]. rewrite decide_False; [done|].
    intros [?%elem_of_nil _]. done.
  - rewrite IH, expire_file_lookup. destruct (es !! f') as [x|]; [|done].
    repeat (case_decide; cbv beta iota); try done; exfalso;
      rewrite ?elem_of_cons in *; tauto.
Qed.

(** Taking the names of a partition one by one leaves what the filter
    leaves. *)
Lemma expire_all_files now (es : gmap string meta) :
  foldl (λ es f, expire_file now f es) es (map_to_list es).*1 =
    filter (λ fm, ¬ expired now fm.2) es.
Proof.
  apply map_eq. intros f. rewrite expire_files_lookup, map_lookup_filter.
  destruct (es !! f) as [x|] eqn:Hf; [|done]. simpl.
  assert (f ∈ (map_to_list es).*1) as Hin.
  { apply list_elem_of_fmap. exists (f, x). split; [done|]. by apply elem_of_map_to_list. }
  destruct (decide (expired now x)) as [Hx|Hx].
  - rewrite decide_True by done. by rewrite option_guard_False by tauto.
  - rewrite decide_False by tauto. by rewrite option_guard_True.
Qed.

Lemma cleanup_file_run now' k f now s m es :
  is_name k = true → is_name f = true → s !! k = Some (Dir m es) →
  cleanup_file (now' - 24 * 60 * 60 * 1000) ("uploads/" +:+ k) f now s =
    (Ok tt, <[k := Dir m (expire_file now' f es)]> s).
Proof.
  intros Hk Hf Hs. unfold cleanup_file. rewrite join_entry by done.
  assert (partition s k = es) as Hpart by (unfold partition; by rewrite Hs).
  rewrite run_bind. unfold expire_file.
  destruct (es !! f) as [x|] eqn:Hx.
  - rewrite (run_try_ok _ _ _ {| Fs.isDirectory := false; Fs.info := x |} s); cycle 1.
    { rewrite (stat_entry _ k f) by by apply locate_entry. by rewrite Hpart, Hx. }
    cbv iota. change (Fs.info _) with x.
    destruct (decide (expired now' x)) as [Hexp|Hexp].
    + unfold expired, retention_window in Hexp. apply Z.ltb_lt in Hexp. rewrite Hexp.
      rewrite run_bind.
      rewrite (run_try_ok _ _ _ tt (<[k := Dir m (delete f es)]> s)); [done|].
      by apply remove_entry_dir; [apply locate_entry|].
    + unfold expired, retention_window in Hexp. apply Z.ltb_nlt in Hexp. rewrite Hexp.
      by rewrite insert_id.
  - rewrite (run_try_throw _ _ _ s); cycle 1.
    { rewrite (stat_entry _ k f) by by apply locate_entry. by rewrite Hpart, Hx. }
    by rewrite insert_id.
Qed.

Lemma cleanup_files_run now' k (l : list string) now s m es :
  is_name k = true → Forall (λ f, is_name f = true) l → s !! k = Some (Dir m es) →
  forEach l (cleanup_file (now' - 24 * 60 * 60 * 1000) ("uploads/" +:+ k)) now s =
    (Ok tt, <[k := Dir m (foldl (λ es f, expire_file now' f es) es l)]> s).
Proof.
  intros Hk Hl. revert s es. induction Hl as [|f l Hf _ IH]; intros s es Hs.
  - simpl. by rewrite insert_id.
  - change (forEach (f :: l) ?g) with (g f;; forEach l g).
    rewrite run_bind, (cleanup_file_run now' k f now s m es) by done.
    rewrite (IH _ (expire_file now' f es)) by by rewrite lookup_insert_eq.
    by rewrite insert_insert_eq.
Qed.

Lemma cleanup_user_run now' k now s :
  wf_store s → is_name k = true →
  cleanup_user (now' - 24 * 60 * 60 * 1000) "uploads" k now s =
    (Ok tt, alter (purge now') k s).
Proof.
  intros Hwf Hk. unfold cleanup_user. rewrite join_partition by done.
  rewrite run_bind. destruct (s !! k) as [n|] eqn:Hs; cycle 1.
  { rewrite (run_try_throw _ _ _ s); cycle 1.
    { rewrite (stat_top _ k) by by apply locate_partition. by rewrite Hs. }
    f_equal. apply map_eq. intros k'. rewrite lookup_alter.
    case_decide; subst; by rewrite ?Hs. }
  rewrite (run_try_ok _ _ _ (Fs.node_stats n) s); cycle 1.
  { rewrite (stat_top _ k) by by apply locate_partition. by rewrite Hs. }
  cbv iota. destruct n as [m|m es]; simpl.
  { f_equal. apply map_eq. intros k'. rewrite lookup_alter.
    case_decide; subst; by rewrite ?Hs. }
  rewrite run_bind.
  rewrite (run_try_ok _ _ _ (map_to_list es).*1 s); cycle 1.
  { rewrite (readdir_top _ k false) by by apply locate_partition. by rewrite Hs. }
  cbv iota. rewrite (cleanup_files_run now' k _ now s m es); [|done| |done].
  - rewrite expire_all_files. f_equal. apply map_eq. intros k'.
    rewrite lookup_alter, lookup_insert. case_decide; subst; by rewrite ?Hs.
  - destruct (Hwf k _ Hs) as [_ Hes]. apply Forall_forall. intros f Hf.
    apply list_elem_of_fmap in Hf as ([f' x] & -> & Hfx).
    apply elem_of_map_to_list in Hfx. by apply (Hes f' x).
Qed.

Lemma purge_names now n :
  match n with
  | Dir _ es => map_Forall (λ f _, is_name f = true) es
  | File _ => True
  end →
  match purge now n with
  | Dir _ es => map_Forall (λ f _, is_name f = true) es
  | File _ => True
  end.
Proof.
  destruct n as [m|m es]; [done|]. simpl. intros Hes f x Hf.
  apply map_lookup_filter_Some in Hf as [Hf _]. by apply (Hes f x).
Qed.

Lemma wf_store_alter_purge now k s : wf_store s → wf_store (alter (purge now) k s).
Proof.
  intros Hwf k' n. rewrite lookup_alter. case_decide as Hk; [subst k'|by apply Hwf].
  destruct (s !! k) as [n0|] eqn:Hs; [|done]. intros [= <-].
  destruct (Hwf k n0 Hs) as [? Hn]. split; [done|]. by apply purge_names.
Qed.

Lemma wf_store_sweep now s : wf_store s → wf_store (sweep now s).
Proof.
  intros Hwf k n. unfold sweep. rewrite lookup_fmap.
  destruct (s !! k) as [n0|] eqn:Hs; [|done]. intros [= <-].
  destruct (Hwf k n0 Hs) as [? Hn]. split; [done|]. by apply purge_names.
Qed.

Lemma alter_all_lookup (f : node → node) (l : list string) (s : store) k :
  NoDup l →
  foldl (λ s k, alter f k s) s l !! k = if decide (k ∈ l) then f <$> s !! k else s !! k.
Proof.
  intros Hl. revert s. induction Hl as [|k0 l Hk0 _ IH]; intros s; cbn [foldl].
  - by rewrite decide_False by apply not_elem_of_nil.
  - rewrite IH, lookup_alter.
    repeat (case_decide; cbv beta iota); subst; try done; exfalso;
      rewrite ?elem_of_cons in *; intuition congruence.
Qed.

(** The job does what a sweep is meant to do. *)
Lemma cleanup_run now s : wf_store s → cleanup now s = (Ok tt, sweep now s).
Proof.
  intros Hwf. unfold cleanup. rewrite join_uploads.
  rewrite run_bind. change (clock now s) with (Ok now, s). cbv iota.
  rewrite run_bind.
  rewrite (run_try_ok _ _ _ (map_to_list s).*1 s) by by apply (readdir_root _ false).
  cbv iota.
  destruct (forEach_run (cleanup_user (now - 24 * 60 * 60 * 1000) "uploads")
              (alter (purge now)) wf_store (map_to_list s).*1 now s) as [-> _]; [|done|].
  - intros k s' Hk Hs'. split; [|by apply wf_store_alter_purge].
    apply cleanup_user_run; [done|].
    apply list_elem_of_fmap in Hk as ([k' n] & -> & Hkn).
    apply elem_of_map_to_list in Hkn. by destruct (Hwf k' n Hkn).
  - f_equal. apply map_eq. intros k. unfold sweep.
    rewrite alter_all_lookup by apply NoDup_fst_map_to_list. rewrite lookup_fmap.
    case_decide as Hk; [done|]. destruct (s !! k) as [n|] eqn:Hs; [|done].
    destruct Hk. apply list_elem_of_fmap. exists (k, n). split; [done|].
    by apply elem_of_map_to_list.
Qed.

Lemma purge_purge now n : purge now (purge now n) = purge now n.
Proof.
  destruct n as [m|m es]; [done|]. simpl. f_equal. apply map_eq. intros f.
  rewrite !map_lookup_filter. destruct (es !! f) as [x|]; [|done]. simpl.
  destruct (decide (¬ expired now x)).
  - rewrite option_guard_True by done. simpl. by rewrite option_guard_True.
  - by rewrite option_guard_False.
Qed.

Lemma sweep_sweep now s : sweep now (sweep now s) = sweep now s.
Proof.
  unfold sweep. rewrite <-map_fmap_compose. apply map_fmap_ext.
  intros k n _. apply purge_purge.
Qed.

Lemma partition_sweep now s k :
  partition (sweep now s) k = filter (λ fm, ¬ expired now fm.2) (partition s k).
Proof.
  unfold partition, sweep. rewrite lookup_fmap.
  destruct (s !! k) as [[m|m es]|]; simpl; try done; by rewrite map_filter_empty.
Qed.

End cleanup_job.

(** C4: on a store whose entries bear proper names, one run of the cleanup
    job removes from every partition exactly the files born more than 24
    hours before the run; every other file, every partition directory and
    every stray file of [uploads] stays as it was; and a second run at the
    same instant changes nothing. *)
Theorem sweep_removes_expired now s :
  wf_store s →
  retention_window = 24 * 60 * 60 * 1000 ∧
  ∃ s', cleanup now s = (Ok tt, s') ∧
    (∀ k f, partition s' k !! f =
              match partition s k !! f with
              | Some x => if decide (birthtime x < now - retention_window)
                          then None else Some x
              | None => None
              end) ∧
    (∀ k, is_dir s' k ↔ is_dir s k) ∧
    (∀ k m, s' !! k = Some (File m) ↔ s !! k = Some (File m)) ∧
    cleanup now s' = (Ok tt, s').
Proof.
  intros Hwf. split; [done|]. exists (sweep now s).
  split; [by apply cleanup_run|]. split; [|split; [|split]].
  - intros k f. rewrite partition_sweep, map_lookup_filter.
    destruct (partition s k !! f) as [x|]; [|done]. simpl.
    fold (expired now x). destruct (decide (expired now x)).
    + by rewrite option_guard_False by tauto.
    + by rewrite option_guard_True.
  - intros k. unfold is_dir, sweep. rewrite lookup_fmap.
    destruct (s !! k) as [[m|m es]|]; simpl; split; intros (m' & es' & H);
      try done; eauto.
  - intros k m. unfold sweep. rewrite lookup_fmap.
    destruct (s !! k) as [[m'|m' es]|]; simpl; split; intros H; try done.
  - rewrite cleanup_run by by apply wf_store_sweep. by rewrite sweep_sweep.
Qed.

(** ** The share page *)

Section share_page.

Lemma contains_skip (a t needle : string) : contains t needle → contains (a +:+ t) needle.
Proof.
  intros (pre & post & ->). exists (a +:+ pre), post. by rewrite sapp_assoc.
Qed.

Lemma contains_prefix (needle post : string) : contains (needle +:+ post) needle.
Proof. by exists "", post. Qed.

Lemma before_og_video :
  q "^>
    <meta property=^og:video^ content=^" =
  q "^>
    " +:+ q "<meta property=^og:video^ content=^".
Proof. reflexivity. Qed.

Lemma after_og_video :
  q "^>
    <meta property=^og:video:secure_url^ content=^" =
  q "^>" +:+ q "
    <meta property=^og:video:secure_url^ content=^".
Proof. reflexivity. Qed.

(** The page carries the [og:video] tag of its video URL. *)
Lemma share_html_og_video filename shareUrl videoUrl :
  contains (share_html filename shareUrl videoUrl) (og_video videoUrl).
Proof.
  unfold share_html. do 6 apply contains_skip.
  rewrite before_og_video, sapp_assoc. apply contains_skip.
  rewrite after_og_video, !sapp_assoc. unfold og_video.
  rewrite <-(sapp_assoc videoUrl), <-(sapp_assoc (q "<meta property=^og:video^ content=^")).
  apply contains_prefix.
Qed.

Lemma existsSync_on_disk p now s :
  (locate p).1 ≠ Outside → Fs.existsSync p now s = (Ok (bool_decide (on_disk s p)), s).
Proof.
  intros Hin. unfold Fs.existsSync.
  destruct (locate p) as [[| |k|k f|] b] eqn:Hl; try done; do 2 f_equal; symmetry.
  - apply bool_decide_eq_true_2. unfold on_disk. by rewrite Hl.
  - apply bool_decide_ext. unfold on_disk. by rewrite Hl.
  - apply bool_decide_ext. unfold on_disk. by rewrite Hl.
  - apply bool_decide_ext. unfold on_disk. by rewrite Hl.
Qed.

Lemma get_share_run cfg req userEmail filename now s :
  (locate (share_path userEmail filename)).1 ≠ Outside →
  get_share cfg req userEmail filename now s =
    (Ok (if bool_decide (on_disk s (share_path userEmail filename))
         then {| status := 200;
                 content := SendBody (share_html filename
                   (getBaseUrl cfg req +:+ "/share/" +:+ userEmail +:+ "/" +:+ filename)
                   (direct_url cfg req userEmail filename)) |}
         else {| status := 404; content := SendBody "Video not found" |}), s).
Proof.
  intros Hin. unfold get_share. fold (share_path userEmail filename).
  rewrite run_bind, existsSync_on_disk by done.
  by destruct (bool_decide (on_disk s (share_path userEmail filename))).
Qed.

Lemma share_path_names k f :
  is_name k = true → is_name f = true →
  share_path k f = "uploads/" +:+ k +:+ "/" +:+ f.
Proof.
  intros Hk Hf. unfold share_path, Path.join, __dirname.
  assert (Forall (λ x, is_name x = true) ["uploads"; k; f]) as Hall
    by by repeat constructor.
  rewrite filter_cons_True by done. rewrite filter_nonempty_names by done.
  change (Js.join "/" ["."; "uploads"; k; f])
    with ("." +:+ String Js.slash (Js.join "/" ["uploads"; k; f])).
  destruct (join_names_nonempty ["uploads"; k; f]) as (c & r & Hj & Hc); [done..|].
  unfold Path.normalize. rewrite bool_decide_eq_false_2 by done.
  rewrite split_app by done. rewrite split_join by done.
  change (Js.startsWith "/" ("." +:+ _)) with false.
  rewrite ends_with_slash_app.
  assert (Js.ends_with_slash (String Js.slash (Js.join "/" ["uploads"; k; f])) = false) as ->.
  { pose proof (join_names_no_trailing ["uploads"; k; f] ltac:(done) Hall) as Ht.
    rewrite Hj in Ht |- *. simpl. by destruct r. }
  change (Path.normalize_pieces (negb false) ("." :: ["uploads"; k; f]) [])
    with (Path.normalize_pieces true ["uploads"; k; f] []).
  rewrite normalize_pieces_names, app_nil_r, reverse_involutive by done.
  rewrite bool_decide_eq_false_2 by (rewrite Hj; done).
  change (Js.join "/" ["uploads"; k; f]) with ("uploads/" +:+ k +:+ "/" +:+ f).
  by rewrite sapp_nil_r.
Qed.

Lemma on_disk_names s k f :
  is_name k = true → is_name f = true →
  on_disk s (share_path k f) ↔ is_Some (partition s k !! f).
Proof.
  intros Hk Hf. unfold on_disk. rewrite share_path_names, locate_entry by done.
  by rewrite partition_lookup_stats, fmap_is_Some.
Qed.

End share_page.


(** ** The theorems at sample inputs *)

Lemma alice_principal part :
  principal provider_cfg (request_with "alice-token" part) = Some "alice@example.com".
Proof. reflexivity. Defined.

Lemma alice_store_wf t : wf_store (alice_store t).
Proof.
  unfold alice_store. apply map_Forall_insert_2; [|apply map_Forall_singleton; by split].
  split; [done|]. repeat apply map_Forall_insert_2; try done.
  all: by apply map_Forall_singleton.
Defined.

Lemma alice_store_no_clash t : no_clash (alice_store t) (safe_email "alice@example.com").
Proof.
  intros m. change (safe_email "alice@example.com") with "alice_example_com".
  unfold alice_store. rewrite lookup_insert_eq. discriminate.
Defined.

Lemma empty_no_clash k : no_clash ∅ k.
Proof. intros m. rewrite lookup_empty. discriminate. Defined.


Lemma oversized_upload_discarded_witness :
  let part := video_part "holiday.mp4" "video/mp4" (600 * 1000 * 1000) in
  let req := request_with "alice-token" (Some part) in
  ceiling < bytes part ∧
  ∃ s', post_upload provider_cfg req noon ∅ =
          (Ok (json 413 (ErrorBody "File too large. Maximum size is 500MB.")), s') ∧
        partition s' "alice_example_com" ⊆ ∅.
Proof.
  intros part req. split; [reflexivity|].
  destruct (oversized_upload_discarded provider_cfg req "alice@example.com" part noon ∅)
    as (_ & s' & Hrun & _ & Hsub & _).
  - apply alice_principal.
  - discriminate.
  - apply empty_no_clash.
  - repeat split; discriminate.
  - reflexivity.
  - reflexivity.
  - exists s'. split; [exact Hrun|exact Hsub].
Defined.

Lemma sweep_removes_expired_witness :
  wf_store (alice_store noon) ∧
  ∃ s', cleanup noon (alice_store noon) = (Ok tt, s') ∧
        partition s' "alice_example_com" !! "old.mp4" = None ∧
        is_Some (partition s' "alice_example_com" !! "new.MOV").
Proof.
  split; [apply alice_store_wf|].
  destruct (sweep_removes_expired noon (alice_store noon) (alice_store_wf noon))
    as (_ & s' & Hrun & Hfiles & _).
  exists s'. split; [exact Hrun|]. rewrite !Hfiles. split; [reflexivity|].
  vm_compute. eauto.
Defined.

Lemma same_second_uploads_distinct_witness :
  let first := video_part "holiday.mp4" "video/mp4" 1000 in
  let second := video_part "birthday.mp4" "video/mp4" 2000 in
  noon / 1000 = (noon + 1) / 1000 ∧ noon mod 1000 ≠ (noon + 1) mod 1000 ∧
  stored_name noon first ≠ stored_name (noon + 1) second.
Proof.
  intros first second.
  assert (noon mod 1000 ≠ (noon + 1) mod 1000) as Hms by (vm_compute; discriminate).
  split; [reflexivity|]. split; [exact Hms|].
  destruct (same_second_uploads_distinct provider_cfg
              (request_with "alice-token" (Some first))
              (request_with "alice-token" (Some second))
              "alice@example.com" first second noon (noon + 1) ∅)
    as (r1 & s1 & r2 & s2 & _ & _ & _ & _ & Hnames & _).
  - apply alice_principal.
  - apply alice_principal.
  - discriminate.
  - apply empty_no_clash.
  - repeat split; discriminate.
  - reflexivity.
  - reflexivity.
  - repeat split; discriminate.
  - reflexivity.
  - reflexivity.
  - reflexivity.
  - left. exact Hms.
  - exact Hnames.
Defined.

Lemma stored_extension_witness :
  let part := video_part "Holiday.MP4" "application/octet-stream" 1000 in
  let req := request_with "alice-token" (Some part) in
  let run := post_upload provider_cfg req noon ∅ in
  (status <$> (match run.1 with Ok r => Some r | _ => None end)) = Some 200 ∧
  listed (stored_name noon part).
Proof.
  intros part req run. split; [reflexivity|].
  destruct (stored_extension provider_cfg req "alice@example.com" noon ∅
              (match run.1 with Ok r => r | _ => sendStatus 0 end) run.2)
    as (part' & Hfile & _ & _ & Hlisted).
  - apply alice_principal.
  - discriminate.
  - reflexivity.
  - reflexivity.
  - injection Hfile as <-. destruct Hlisted as [H|H]; [exact H|].
    vm_compute in H. discriminate.
Defined.



Lemma partition_made_on_use_witness :
  wf_store (bob_store 0) ∧
  no_clash (bob_store 0) (safe_email "alice@example.com") ∧
  ∃ r s', get_videos provider_cfg (request_with "alice-token" None) noon (bob_store 0) =
            (Ok r, s') ∧
          content r = VideosBody [] ∧ is_dir s' "alice_example_com".
Proof.
  assert (wf_store (bob_store 0)) as Hwf.
  { apply map_Forall_singleton. split; [done|]. by apply map_Forall_singleton. }
  assert (no_clash (bob_store 0) (safe_email "alice@example.com")) as Hclash
    by (intros m; vm_compute; discriminate).
  split; [exact Hwf|]. split; [exact Hclash|].
  destruct (partition_made_on_use provider_cfg (request_with "alice-token" None)
              "alice@example.com" noon (bob_store 0) (alice_principal _)
              ltac:(discriminate) Hclash Hwf)
    as ((r & s' & Hrun & _ & Hdir & Hempty) & _).
  exists r, s'. split; [exact Hrun|]. split; [|exact Hdir].
  apply Hempty. reflexivity.
Defined.

(** * Further properties of the server *)

(** ** The middleware, case by case *)

Section middleware_cases.

Lemma split_nonempty sep (s : string) : Js.split sep s ≠ [].
Proof.
  destruct s as [|c s]; [done|]. simpl.
  destruct (bool_decide (c = sep)); [done|]. by destruct (Js.split sep s).
Qed.

Lemma allowed_emails_set cfg v : ALLOWED_EMAILS cfg = Some v → allowed_emails cfg ≠ [].
Proof.
  intros Hv. unfold allowed_emails. rewrite Hv.
  pose proof (split_nonempty ","%char v). by destruct (Js.split ","%char v).
Qed.

Lemma allowed_emails_unset cfg : ALLOWED_EMAILS cfg = None → allowed_emails cfg = [].
Proof. intros Hv. unfold allowed_emails. by rewrite Hv. Qed.

(** What [authorize] can answer. *)
Lemma authorize_cases cfg p :
  (ALLOWED_EMAILS cfg = None ∧
   authorize cfg p =
     Sent (json 500 (ErrorBody "Server configuration error - no allowed emails configured"))) ∨
  (is_Some (ALLOWED_EMAILS cfg) ∧
   ((∃ r, authorize cfg p = Sent r ∧ status r = 403) ∨
    (∃ user e, authorize cfg p = Next user ∧ p = Some user ∧ email user = Some e ∧
               e ∈ allowed_emails cfg))).
Proof.
  unfold authorize. destruct (ALLOWED_EMAILS cfg) as [v|] eqn:Hv.
  - right. split; [eauto|].
    rewrite bool_decide_eq_false_2 by by eapply allowed_emails_set.
    destruct p as [user|]; [|left; eauto].
    destruct (email user) as [e|] eqn:He; [|left; eauto].
    destruct (Js.includes (allowed_emails cfg) e) eqn:Hin; [|left; eauto].
    right. exists user, e. by apply includes_true in Hin.
  - left. split; [done|]. by rewrite bool_decide_eq_true_2 by by apply allowed_emails_unset.
Qed.

Lemma authenticateToken_cases cfg req :
  authenticateToken cfg req =
    match bearer req with
    | None => Sent (sendStatus 401)
    | Some token =>
        match verified cfg token with
        | Some p => authorize cfg p
        | None => Sent (sendStatus 403)
        end
    end.
Proof.
  unfold authenticateToken, verified. destruct (bearer req) as [token|]; [|done].
  destruct (verifyIdToken cfg token); [|done].
  by destruct (userinfo cfg token) as [|[] []].
Qed.

End middleware_cases.

(** X1: the middleware answers 401 exactly when the request carries no
    bearer token; with a token, whatever goes wrong is answered otherwise. *)
Theorem unauthenticated_iff_no_token cfg req :
  (∃ r, authenticateToken cfg req = Sent r ∧ status r = 401) ↔ bearer req = None.
Proof.
  rewrite authenticateToken_cases. split.
  - intros (r & Hr & Hs). destruct (bearer req) as [token|]; [|done]. exfalso.
    destruct (verified cfg token) as [p|]; [|by injection Hr as <-].
    destruct (authorize_cases cfg p) as [[_ H]|[_ [(r' & H & Hs')|(u & e & H & _)]]];
      rewrite H in Hr; [by injection Hr as <-| |done].
    injection Hr as <-. congruence.
  - intros ->. eauto.
Qed.

(** X2: the reply "no allowed emails configured" (500) is given only when
    [ALLOWED_EMAILS] is not set at all; when it is set, even to the empty
    string, nobody gets 500, and when it is not set, nobody gets through. *)
Theorem config_error_iff_unset cfg req :
  (∀ r, authenticateToken cfg req = Sent r → status r = 500 → ALLOWED_EMAILS cfg = None) ∧
  (ALLOWED_EMAILS cfg = None → ∀ user, authenticateToken cfg req ≠ Next user) ∧
  (ALLOWED_EMAILS cfg = None → ∀ token p, bearer req = Some token →
     verified cfg token = Some p →
     authenticateToken cfg req =
       Sent (json 500 (ErrorBody "Server configuration error - no allowed emails configured"))).
Proof.
  rewrite authenticateToken_cases. split; [|split].
  - intros r Hr Hs. destruct (bearer req) as [token|]; [|by injection Hr as <-].
    destruct (verified cfg token) as [p|]; [|by injection Hr as <-].
    destruct (authorize_cases cfg p) as [[Hv _]|[_ [(r' & H & Hs')|(u & e & H & _)]]];
      [done|rewrite H in Hr..]; [|done].
    injection Hr as <-. congruence.
  - intros Hv user. destruct (bearer req) as [token|]; [|done].
    destruct (verified cfg token) as [p|]; [|done].
    destruct (authorize_cases cfg p) as [[_ ->]|[[v Hv'] _]]; [done|congruence].
  - intros Hv token p -> ->.
    destruct (authorize_cases cfg p) as [[_ ->]|[[v Hv'] _]]; [done|congruence].
Qed.

Lemma config_error_iff_unset_witness :
  ALLOWED_EMAILS unset_cfg = None ∧
  authenticateToken unset_cfg (request_with "alice-token" None) =
    Sent (json 500 (ErrorBody "Server configuration error - no allowed emails configured")).
Proof.
  split; [reflexivity|].
  apply (proj2 (proj2 (config_error_iff_unset unset_cfg (request_with "alice-token" None)))
           eq_refl "alice-token" (Some {| email := Some "alice@example.com" |}));
    reflexivity.
Defined.

(** X3: whoever the middleware lets through presented a token for which a
    verification path gave a profile, and the email of that profile is one
    of the comma-separated entries of [ALLOWED_EMAILS], trimmed. *)
Theorem granted_email_is_listed cfg req user :
  authenticateToken cfg req = Next user →
  ∃ token e v raw,
    bearer req = Some token ∧ verified cfg token = Some (Some user) ∧
    email user = Some e ∧ ALLOWED_EMAILS cfg = Some v ∧
    raw ∈ Js.split ","%char v ∧ e = Js.trim raw.
Proof.
  rewrite authenticateToken_cases. intros Hnext.
  destruct (bearer req) as [token|]; [|done].
  destruct (verified cfg token) as [p|] eqn:Hver; [|done].
  destruct (authorize_cases cfg p) as [[_ H]|[[v Hv] [(r' & H & _)|(u & e & H & -> & He & Hin)]]];
    rewrite H in Hnext; try done.
  injection Hnext as ->. unfold allowed_emails in Hin. rewrite Hv in Hin.
  apply list_elem_of_fmap in Hin as (raw & -> & Hraw).
  exists token, (Js.trim raw), v, raw. eauto 10.
Qed.

Lemma granted_email_is_listed_witness :
  authenticateToken provider_cfg (request_with "bob-token" None) =
    Next {| email := Some "bob@example.com" |} ∧
  ∃ raw, raw ∈ Js.split ","%char "alice@example.com, bob@example.com" ∧
         "bob@example.com" = Js.trim raw.
Proof.
  assert (authenticateToken provider_cfg (request_with "bob-token" None) =
            Next {| email := Some "bob@example.com" |}) as Hauth by reflexivity.
  split; [exact Hauth|].
  destruct (granted_email_is_listed _ _ _ Hauth) as (token & e & v & raw & _ & _ & He & Hv & Hraw & Htrim).
  injection He as <-. injection Hv as <-. exists raw. split; [exact Hraw|exact Htrim].
Defined.

(** X4: a request the middleware answers itself never reaches a route:
    upload, catalog and delete give back that very answer, which is 401, 403
    or 500, and leave the store as it was. *)
Theorem refused_requests_change_nothing cfg req r now s :
  authenticateToken cfg req = Sent r →
  post_upload cfg req now s = (Ok r, s) ∧
  get_videos cfg req now s = (Ok r, s) ∧
  (∀ filename, delete_video cfg req filename now s = (Ok r, s)) ∧
  (status r = 401 ∨ status r = 403 ∨ status r = 500).
Proof.
  intros Hsent. unfold post_upload, get_videos, delete_video, authenticated.
  rewrite Hsent. repeat split; try done.
  rewrite authenticateToken_cases in Hsent.
  destruct (bearer req) as [token|]; [|injection Hsent as <-; by left].
  destruct (verified cfg token) as [p|]; [|injection Hsent as <-; by right; left].
  destruct (authorize_cases cfg p) as [[_ H]|[_ [(r' & H & Hs')|(u & e & H & _)]]];
    rewrite H in Hsent; [injection Hsent as <-; by right; right| |done].
  injection Hsent as <-. by right; left.
Qed.

Lemma refused_requests_change_nothing_witness :
  authenticateToken provider_cfg (request_with "stale" None) = Sent (sendStatus 403) ∧
  delete_video provider_cfg (request_with "stale" None) "clip.mp4" noon (bob_store 0) =
    (Ok (sendStatus 403), bob_store 0).
Proof.
  assert (authenticateToken provider_cfg (request_with "stale" None) = Sent (sendStatus 403))
    as Hauth by reflexivity.
  split; [exact Hauth|].
  exact (proj1 (proj2 (proj2 (refused_requests_change_nothing _ _ _ noon (bob_store 0) Hauth)))
           "clip.mp4").
Defined.

(** ** The bearer token *)

Section bearer_token.

Lemma bearer_second_piece (w t : string) req :
  no_space w = true → no_space t = true →
  authorization req = Some (w +:+ String " "%char t) →
  bearer req = if bool_decide (t = "") then None else Some t.
Proof.
  intros Hw Ht Hauth. unfold bearer. rewrite Hauth.
  unfold no_space in *. rewrite split_app, split_no_sep by done. done.
Qed.

End bearer_token.

(** X5: the token is the second space-separated piece of the
    [Authorization] header, whatever the piece before it: the scheme word is
    not looked at, and a header of one piece carries no token and is
    answered with 401. *)
Theorem token_is_second_piece cfg req (w t : string) :
  no_space w = true → no_space t = true → t ≠ "" →
  (authorization req = Some (w +:+ String " "%char t) → bearer req = Some t) ∧
  (authorization req = Some w → authenticateToken cfg req = Sent (sendStatus 401)).
Proof.
  intros Hw Ht Hne. split.
  - intros Hauth. rewrite (bearer_second_piece w t) by done.
    by rewrite bool_decide_eq_false_2.
  - intros Hauth. apply no_token_unauthenticated. unfold bearer. rewrite Hauth.
    unfold no_space in Hw. by rewrite split_no_sep.
Qed.

Lemma token_is_second_piece_witness :
  no_space "Basic" = true ∧ no_space "alice-token" = true ∧
  principal provider_cfg
    {| authorization := Some "Basic alice-token"; x_forwarded_proto := None;
       protocol := "http"; host := None; file := None |} = Some "alice@example.com".
Proof.
  split; [reflexivity|]. split; [reflexivity|].
  pose proof (proj1 (token_is_second_piece provider_cfg
    {| authorization := Some "Basic alice-token"; x_forwarded_proto := None;
       protocol := "http"; host := None; file := None |} "Basic" "alice-token"
    eq_refl eq_refl ltac:(discriminate)) eq_refl) as Hb.
  unfold principal, authenticateToken. rewrite Hb. reflexivity.
Defined.

(** ** Partition keys *)

Section partition_keys.

Lemma safe_email_idempotent e : safe_email (safe_email e) = safe_email e.
Proof.
  unfold safe_email. induction e as [|c e IH]; [done|]. simpl. rewrite IH. f_equal.
  destruct (Js.is_alnum c) eqn:Hc; [by rewrite Hc|done].
Qed.

End partition_keys.

(** X6: whatever a non-empty email contains (separators, dots), the
    directory made for it lies directly under [uploads]: its key has the
    length of the email, is a single proper name of letters, digits and
    underscores, and is its own key. *)
Theorem partition_stays_under_uploads e now s :
  e ≠ "" →
  Js.length (safe_email e) = Js.length e ∧
  Js.all_chars (λ c, Js.is_alnum c || bool_decide (c = "_"%char)) (safe_email e) = true ∧
  safe_email (safe_email e) = safe_email e ∧
  locate (Path.join ["uploads"; safe_email e]) = (Top (safe_email e), false) ∧
  ∀ k, k ≠ safe_email e → (getUserDirectory e now s).2 !! k = s !! k.
Proof.
  intros Hne. pose proof (safe_email_name e Hne) as Hk.
  split; [apply length_map_chars|]. split; [apply safe_email_chars|].
  split; [apply safe_email_idempotent|].
  split; [by rewrite join_partition, locate_partition|].
  intros k Hkne. rewrite getUserDirectory_run by done.
  destruct (s !! safe_email e) as [[m|m es]|] eqn:Hs; simpl; try done;
    by rewrite ensured_other.
Qed.

Lemma partition_stays_under_uploads_witness :
  locate (Path.join ["uploads"; safe_email "../../etc/passwd"]) =
    (Top "______etc_passwd", false).
Proof.
  exact (proj1 (proj2 (proj2 (proj2
    (partition_stays_under_uploads "../../etc/passwd" 0 ∅ ltac:(discriminate)))))).
Defined.

(** X7: two allow-listed emails with the same key share one partition:
    asked through the same host and scheme, each gets the catalog of the
    other. *)
Theorem colliding_emails_share_catalog cfg req1 req2 e1 e2 now s :
  principal cfg req1 = Some e1 → principal cfg req2 = Some e2 → e1 ≠ "" →
  safe_email e1 = safe_email e2 → getBaseUrl cfg req1 = getBaseUrl cfg req2 →
  no_clash s (safe_email e1) → wf_store s →
  get_videos cfg req1 now s = get_videos cfg req2 now s.
Proof.
  intros Hp1 Hp2 Hne Hkey Hbase Hclash Hwf.
  assert (e2 ≠ "") as Hne2.
  { intros ->. destruct e1; [done|]. discriminate Hkey. }
  rewrite (get_videos_run cfg req1 e1), (get_videos_run cfg req2 e2); try done.
  - rewrite <-Hkey. unfold summary. by rewrite Hbase.
  - by rewrite <-Hkey.
Qed.

Lemma colliding_emails_share_catalog_witness :
  principal twin_cfg (request_with "dot-token" None) = Some "a.b@example.com" ∧
  principal twin_cfg (request_with "underscore-token" None) = Some "a_b@example.com" ∧
  get_videos twin_cfg (request_with "dot-token" None) noon ∅ =
    get_videos twin_cfg (request_with "underscore-token" None) noon ∅.
Proof.
  split; [reflexivity|]. split; [reflexivity|].
  apply (colliding_emails_share_catalog twin_cfg _ _ "a.b@example.com" "a_b@example.com").
  - reflexivity.
  - reflexivity.
  - discriminate.
  - reflexivity.
  - reflexivity.
  - apply empty_no_clash.
  - apply map_Forall_empty.
Defined.

(** ** Uploads that bring no usable file *)

(** X8: an authenticated upload without a file part, or with a part that
    has no file name, is answered with 400 "No video file uploaded", and the
    store stays as it was (no partition is made). *)
Theorem upload_without_file cfg req e now s :
  principal cfg req = Some e →
  file req = None ∨ (∃ part, file req = Some part ∧ originalname part = "") →
  post_upload cfg req now s = (Ok (json 400 (ErrorBody "No video file uploaded")), s).
Proof.
  intros (user & Hauth & He)%principal_next Hfile.
  unfold post_upload, authenticated. rewrite Hauth, run_bind.
  destruct Hfile as [->|(part & -> & Hname)]; [done|].
  unfold single. by rewrite bool_decide_eq_true_2.
Qed.

Lemma upload_without_file_witness :
  principal provider_cfg (request_with "alice-token" None) = Some "alice@example.com" ∧
  post_upload provider_cfg (request_with "alice-token" None) noon ∅ =
    (Ok (json 400 (ErrorBody "No video file uploaded")), ∅).
Proof.
  split; [reflexivity|].
  apply (upload_without_file _ _ "alice@example.com"); [reflexivity|by left].
Defined.

(** X9: a file sent in any field but [video] is refused with 400
    "Unexpected field" before the file filter is asked, so even a proper
    video is refused there; the store stays as it was. *)
Theorem upload_in_other_field cfg req e part now s :
  principal cfg req = Some e → file req = Some part →
  originalname part ≠ "" → fieldname part ≠ "video" →
  post_upload cfg req now s = (Ok (json 400 (ErrorBody "Unexpected field")), s).
Proof.
  intros (user & Hauth & He)%principal_next Hfile Hname Hfield.
  unfold post_upload, authenticated. rewrite Hauth, run_bind, Hfile.
  unfold single. rewrite !bool_decide_eq_false_2 by done. done.
Qed.

Lemma upload_in_other_field_witness :
  let part := {| fieldname := "file"; originalname := "holiday.mp4";
                 mimetype := "video/mp4"; bytes := 1000 |} in
  videoFileFilter part = Accept ∧
  post_upload provider_cfg (request_with "alice-token" (Some part)) noon ∅ =
    (Ok (json 400 (ErrorBody "Unexpected field")), ∅).
Proof.
  intros part. split; [reflexivity|].
  apply (upload_in_other_field _ _ "alice@example.com" part);
    [reflexivity|reflexivity|discriminate|discriminate].
Defined.

(** ** An upload and what follows it *)

Section after_upload.

Lemma is_dir_no_clash s k : is_dir s k → no_clash s k.
Proof. intros (m & es & Hk) m'. by rewrite Hk. Qed.

Lemma wf_store_put_file now s k f n :
  is_name f = true → wf_store s → wf_store (put_file now s k f n).
Proof.
  intros Hf Hwf. unfold put_file. destruct (s !! k) as [[m|m es]|] eqn:Hk; try done.
  destruct (Hwf k _ Hk) as [Hname Hes].
  apply map_Forall_insert_2; [|done]. split; [done|].
  by apply map_Forall_insert_2.
Qed.

Lemma wf_store_drop_file s k f : wf_store s → wf_store (drop_file s k f).
Proof.
  intros Hwf. unfold drop_file. destruct (s !! k) as [[m|m es]|] eqn:Hk; try done.
  destruct (Hwf k _ Hk) as [Hname Hes].
  apply map_Forall_insert_2; [|done]. split; [done|].
  intros f' x [_ Hf']%lookup_delete_Some. by apply (Hes f' x).
Qed.

(** The store a successful upload leaves, and what is known of it. *)
Lemma post_upload_stored cfg req e part now s :
  principal cfg req = Some e → e ≠ "" → no_clash s (safe_email e) → wf_store s →
  carries_video req part → videoFileFilter part = Accept → bytes part < ceiling →
  let k := safe_email e in
  let name := stored_name now part in
  let s' := put_file now (ensured now s k) k name (bytes part) in
  post_upload cfg req now s =
    (Ok (json 200 (UploadedBody "Video uploaded successfully" name
            (getBaseUrl cfg req +:+ "/uploads/" +:+ k +:+ "/" +:+ name)
            (getBaseUrl cfg req +:+ "/share/" +:+ k +:+ "/" +:+ name)
            (Date.toISOString now))), s') ∧
  is_dir s' k ∧ wf_store s' ∧
  partition s' k =
    <[name := {| birthtime := match partition s k !! name with
                              | Some old => birthtime old
                              | None => now
                              end;
                 size := bytes part |}]> (partition s k) ∧
  ∀ now', ensured now' s' k = s'.
Proof.
  intros Hp Hne Hclash Hwf Hc Hf Hsize k name s'.
  pose proof (ensured_is_dir now s k Hclash) as Hdir.
  assert (is_dir s' k) as Hdir' by by apply put_file_is_dir.
  split.
  { rewrite (post_upload_accepted cfg req e part now s) by done.
    apply Z.lt_le_incl, Z.ltb_ge in Hsize. by rewrite Hsize. }
  split; [done|]. split.
  { apply wf_store_put_file; [apply stored_name_is_name|].
    by apply wf_store_ensured; [apply safe_email_name|]. }
  split.
  { unfold s'. by rewrite put_file_partition, partition_ensured. }
  intros now'. apply ensured_id. destruct Hdir' as (m & es & ->). eauto.
Qed.

End after_upload.

(** X10: a video uploaded under an allow-listed extension shows in the
    caller's next catalog, under the name and with the two URLs the upload
    reply gave and with the number of bytes that were sent. *)
Theorem uploaded_video_is_listed cfg req e part now now' s :
  principal cfg req = Some e → e ≠ "" → no_clash s (safe_email e) → wf_store s →
  carries_video req part → extension_of part ∈ allowedExtensions →
  bytes part < ceiling →
  ∃ s' videos v message uploaded_at,
    post_upload cfg req now s =
      (Ok (json 200 (UploadedBody message (v_filename v) (videoUrl v) (shareUrl v)
                       uploaded_at)), s') ∧
    get_videos cfg req now' s' = (Ok (json 200 (VideosBody videos)), s') ∧
    v ∈ videos ∧ v_filename v = stored_name now part ∧ v_size v = bytes part.
Proof.
  intros Hp Hne Hclash Hwf Hc Hext Hsize.
  assert (videoFileFilter part = Accept) as Hf by (apply filter_accepts; by left).
  destruct (post_upload_stored cfg req e part now s Hp Hne Hclash Hwf Hc Hf Hsize)
    as (Hrun & Hdir & Hwf' & Hpart & Hens).
  set (k := safe_email e) in *. set (name := stored_name now part) in *.
  set (s' := put_file now (ensured now s k) k name (bytes part)) in *.
  set (m := {| birthtime := match partition s k !! name with
                            | Some old => birthtime old
                            | None => now
                            end; size := bytes part |}) in *.
  exists s'. eexists. exists (summary cfg req k (name, m)). do 2 eexists.
  split; [exact Hrun|].
  split.
  { rewrite (get_videos_run cfg req e) by (try done; by apply is_dir_no_clash).
    fold k. by rewrite Hens. }
  split; [|done].
  rewrite sort_by_perm. apply list_elem_of_fmap. exists (name, m). split; [done|].
  apply list_elem_of_filter. split; [by apply listed_stored|].
  apply elem_of_map_to_list. rewrite Hpart. apply lookup_insert_eq.
Qed.

Lemma uploaded_video_is_listed_witness :
  let part := video_part "Holiday.MP4" "application/octet-stream" 1000 in
  let req := request_with "alice-token" (Some part) in
  extension_of part ∈ allowedExtensions ∧
  ∃ s' videos v,
    (post_upload provider_cfg req noon ∅).2 = s' ∧
    get_videos provider_cfg req (noon + 5) s' = (Ok (json 200 (VideosBody videos)), s') ∧
    v ∈ videos ∧ v_size v = 1000.
Proof.
  intros part req.
  assert (extension_of part ∈ allowedExtensions) as Hext.
  { apply (bool_decide_eq_true_1 _). reflexivity. }
  split; [exact Hext|].
  destruct (uploaded_video_is_listed provider_cfg req "alice@example.com" part noon
              (noon + 5) ∅) as (s' & videos & v & msg & at_ & Hrun & Hcat & Hin & _ & Hsz).
  - reflexivity.
  - discriminate.
  - apply empty_no_clash.
  - apply map_Forall_empty.
  - repeat split; discriminate.
  - exact Hext.
  - reflexivity.
  - exists s', videos, v. rewrite Hrun. split; [reflexivity|]. split; [exact Hcat|].
    split; [exact Hin|exact Hsz].
Defined.



(** X12: the share URL an upload reply gives leads to a page: the share
    route, asked for the caller's key and the stored name, answers 200 with
    a page whose [og:video] tag carries the video URL of the upload reply. *)
Theorem uploaded_video_has_share_page cfg req e part now now' s :
  principal cfg req = Some e → e ≠ "" → no_clash s (safe_email e) → wf_store s →
  carries_video req part → videoFileFilter part = Accept → bytes part < ceiling →
  ∃ s' message vUrl sUrl uploaded_at html,
    post_upload cfg req now s =
      (Ok (json 200 (UploadedBody message (stored_name now part) vUrl sUrl uploaded_at)),
       s') ∧
    sUrl = getBaseUrl cfg req +:+ "/share/" +:+ safe_email e +:+ "/" +:+
           stored_name now part ∧
    get_share cfg req (safe_email e) (stored_name now part) now' s' =
      (Ok {| status := 200; content := SendBody html |}, s') ∧
    contains html (og_video vUrl).
Proof.
  intros Hp Hne Hclash Hwf Hc Hf Hsize.
  destruct (post_upload_stored cfg req e part now s Hp Hne Hclash Hwf Hc Hf Hsize)
    as (Hrun & Hdir & Hwf' & Hpart & Hens).
  pose proof (safe_email_name e Hne) as Hk.
  pose proof (stored_name_is_name now part) as Hn.
  do 6 eexists. split; [exact Hrun|]. split; [done|].
  rewrite get_share_run by by rewrite share_path_names, locate_entry.
  rewrite bool_decide_eq_true_2; cycle 1.
  { apply on_disk_names; [done..|]. rewrite Hpart, lookup_insert_eq. eauto. }
  split; [done|]. apply share_html_og_video.
Qed.

Lemma uploaded_video_has_share_page_witness :
  let part := video_part "holiday.mp4" "video/mp4" 1000 in
  let req := request_with "alice-token" (Some part) in
  bytes part < ceiling ∧
  ∃ html vUrl,
    (get_share provider_cfg req (safe_email "alice@example.com") (stored_name noon part)
       (noon + 5) (post_upload provider_cfg req noon ∅).2).1 =
      Ok {| status := 200; content := SendBody html |} ∧
    contains html (og_video vUrl).
Proof.
  intros part req. split; [reflexivity|].
  destruct (uploaded_video_has_share_page provider_cfg req "alice@example.com" part noon
              (noon + 5) ∅)
    as (s' & msg & vUrl & sUrl & at_ & html & Hrun & _ & Hshare & Hog).
  - reflexivity.
  - discriminate.
  - apply empty_no_clash.
  - apply map_Forall_empty.
  - repeat split; discriminate.
  - reflexivity.
  - reflexivity.
  - exists html, vUrl. rewrite Hrun. cbn [snd]. rewrite Hshare.
    split; [reflexivity|exact Hog].
Defined.

(** ** Deleting, and what one user's requests do to the others *)

Section delete_more.

Lemma drop_put_file now s k f n :
  is_dir s k → partition s k !! f = None → drop_file (put_file now s k f n) k f = s.
Proof.
  intros (m & es & Hk) Hf. unfold partition in Hf. rewrite Hk in Hf.
  unfold put_file. rewrite Hk. unfold drop_file. rewrite lookup_insert_eq.
  rewrite insert_insert_eq, delete_insert_eq, delete_id by done. by apply insert_id.
Qed.

Lemma normalize_pieces_app b (l1 l2 res : list string) :
  Path.normalize_pieces b (l1 ++ l2) res =
    Path.normalize_pieces b l2 (Path.normalize_pieces b l1 res).
Proof.
  revert res. induction l1 as [|p l1 IH]; intros res; [done|].
  cbn [app Path.normalize_pieces]. repeat case_match; apply IH.
Qed.

(** [path.join(userDir, '.')] is the partition directory itself. *)
Lemma join_partition_dot (k : string) :
  is_name k = true → Path.join ["uploads/" +:+ k; "."] = "uploads/" +:+ k.
Proof.
  intros Hk. pose proof Hk as (_ & _ & _ & Hsep)%is_name_spec.
  unfold Path.join. rewrite !filter_cons_True, filter_nil by done.
  change (Js.join "/" ["uploads/" +:+ k; "."])
    with ("uploads" +:+ String Js.slash (k +:+ String Js.slash ".")).
  unfold Path.normalize.
  rewrite bool_decide_eq_false_2 by done.
  rewrite split_app by done. rewrite split_app by done.
  change (Js.split Js.slash ".") with ["."].
  change ["uploads"; k; "."] with (["uploads"; k] ++ ["."]).
  change (Js.startsWith "/" _) with false. change (negb false) with true.
  rewrite normalize_pieces_app.
  assert (Forall (λ x, is_name x = true) ["uploads"; k]) as Hall.
  { apply Forall_cons_2; [done|]. apply Forall_cons_2; [done|]. apply Forall_nil_2. }
  rewrite (normalize_pieces_names true ["uploads"; k] [] Hall).
  change (Path.normalize_pieces _ ["."] ?r) with r.
  rewrite app_nil_r, reverse_involutive.
  change (Js.join "/" ["uploads"; k]) with ("uploads/" +:+ k).
  rewrite ends_with_slash_app.
  change (Js.ends_with_slash (String Js.slash (k +:+ String Js.slash ".")))
    with (Js.ends_with_slash (String Js.slash k +:+ String Js.slash ".")).
  rewrite ends_with_slash_app.
  rewrite bool_decide_eq_false_2 by done.
  cbv iota. simpl. by rewrite sapp_nil_r.
Qed.

Lemma no_clash_sweep now s k : no_clash s k → no_clash (sweep now s) k.
Proof.
  intros Hclash m. unfold sweep. rewrite lookup_fmap.
  destruct (s !! k) as [[m'|m' es]|] eqn:Hk; try done.
  by destruct (Hclash m').
Qed.

Lemma purge_compose now1 now2 n :
  now1 ≤ now2 → purge now2 (purge now1 n) = purge now2 n.
Proof.
  intros Hle. destruct n as [m|m es]; [done|]. simpl. f_equal. apply map_eq. intros f.
  rewrite !map_lookup_filter. destruct (es !! f) as [x|]; [|done]. simpl.
  destruct (decide (¬ expired now1 x)) as [H1|H1].
  - by rewrite (option_guard_True (¬ expired now1 x)) by done.
  - rewrite (option_guard_False (¬ expired now1 x)) by done. simpl.
    rewrite option_guard_False; [done|]. intros H2. apply H1. intros H. apply H2.
    unfold expired in *. simpl in *. lia.
Qed.

Lemma sweep_compose now1 now2 s :
  now1 ≤ now2 → sweep now2 (sweep now1 s) = sweep now2 s.
Proof.
  intros Hle. unfold sweep. rewrite <-map_fmap_compose. apply map_fmap_ext.
  intros k n _. by apply purge_compose.
Qed.

(** The store after an upload route has run differs from the one before
    in the caller's partition at most. *)
Lemma post_upload_other cfg req e now s k' :
  principal cfg req = Some e → e ≠ "" → no_clash s (safe_email e) →
  k' ≠ safe_email e → (post_upload cfg req now s).2 !! k' = s !! k'.
Proof.
  intros Hp Hne Hclash Hk'.
  destruct (file req) as [part|] eqn:Hfile; cycle 1.
  { pose proof Hp as (user & Hauth & He)%principal_next.
    unfold post_upload, authenticated. by rewrite Hauth, run_bind, Hfile. }
  destruct (decide (originalname part = "")) as [Hname|Hname].
  { pose proof Hp as (user & Hauth & He)%principal_next.
    unfold post_upload, authenticated. rewrite Hauth, run_bind, Hfile.
    unfold single. by rewrite bool_decide_eq_true_2. }
  destruct (decide (fieldname part = "video")) as [Hfield|Hfield]; cycle 1.
  { pose proof Hp as (user & Hauth & He)%principal_next.
    unfold post_upload, authenticated. rewrite Hauth, run_bind, Hfile.
    unfold single. by rewrite !bool_decide_eq_false_2. }
  destruct (videoFileFilter part) as [|msg] eqn:Hf; cycle 1.
  { pose proof Hp as (user & Hauth & He)%principal_next.
    unfold post_upload, authenticated. rewrite Hauth, run_bind, Hfile.
    unfold single. rewrite bool_decide_eq_false_2 by done.
    rewrite Hfield, bool_decide_eq_true_2 by done. change (negb true) with false.
    cbv iota. change (fileFilter upload part) with (videoFileFilter part).
    by rewrite Hf. }
  rewrite (post_upload_accepted cfg req e part now s) by done.
  destruct (ceiling <? bytes part); cbn [snd].
  - by rewrite drop_file_other, put_file_other, ensured_other.
  - by rewrite put_file_other, ensured_other.
Qed.

End delete_more.

(** X13: deleting a freshly uploaded video undoes the upload: both
    requests are answered with 200, and the store is back to what it was
    before the upload, the caller's partition directory (made if it was
    not there) apart. *)
Theorem upload_then_delete_restores cfg req e part now now' s :
  principal cfg req = Some e → e ≠ "" → no_clash s (safe_email e) →
  carries_video req part → videoFileFilter part = Accept → bytes part < ceiling →
  partition s (safe_email e) !! stored_name now part = None →
  ∃ s1 message vUrl sUrl uploaded_at,
    post_upload cfg req now s =
      (Ok (json 200 (UploadedBody message (stored_name now part) vUrl sUrl uploaded_at)),
       s1) ∧
    delete_video cfg req (stored_name now part) now' s1 =
      (Ok (json 200 (MessageBody "Video deleted successfully")),
       ensured now s (safe_email e)).
Proof.
  intros Hp Hne Hclash Hc Hf Hsize Hfresh.
  set (k := safe_email e) in *. set (name := stored_name now part) in *.
  pose proof (ensured_is_dir now s k Hclash) as Hdir.
  assert (is_dir (put_file now (ensured now s k) k name (bytes part)) k) as Hdir'
    by by apply put_file_is_dir.
  do 5 eexists. split.
  { rewrite (post_upload_accepted cfg req e part now s) by done.
    apply Z.lt_le_incl, Z.ltb_ge in Hsize. rewrite Hsize. reflexivity. }
  fold k name.
  rewrite (delete_video_name cfg req e);
    [|done|done|by apply is_dir_no_clash|apply stored_name_is_name].
  fold k name. rewrite put_file_partition, partition_ensured, Hfresh by done.
  rewrite bool_decide_eq_true_2 by (rewrite lookup_insert_eq; eauto).
  rewrite (ensured_id now') by (destruct Hdir' as (m & es & ->); eauto).
  rewrite drop_put_file; [done|done|]. by rewrite partition_ensured.
Qed.

Lemma upload_then_delete_restores_witness :
  let part := video_part "holiday.mp4" "video/mp4" 1000 in
  let req := request_with "alice-token" (Some part) in
  bytes part < ceiling ∧
  delete_video provider_cfg req (stored_name noon part) (noon + 5)
    (post_upload provider_cfg req noon ∅).2 =
    (Ok (json 200 (MessageBody "Video deleted successfully")),
     ensured noon ∅ (safe_email "alice@example.com")).
Proof.
  intros part req. split; [reflexivity|].
  destruct (upload_then_delete_restores provider_cfg req "alice@example.com" part noon
              (noon + 5) ∅) as (s1 & msg & vUrl & sUrl & at_ & Hrun & Hdel).
  - reflexivity.
  - discriminate.
  - apply empty_no_clash.
  - repeat split; discriminate.
  - reflexivity.
  - reflexivity.
  - unfold partition. rewrite lookup_empty. apply lookup_empty.
  - rewrite Hrun. exact Hdel.
Defined.

(** X14: a video can be deleted once: the first delete of a file of the
    caller's partition is answered with 200, a second delete of the same
    name with 404, and the second changes nothing. *)
Theorem delete_twice_not_found cfg req e filename now now' s :
  principal cfg req = Some e → e ≠ "" → no_clash s (safe_email e) → wf_store s →
  is_Some (partition s (safe_email e) !! filename) →
  ∃ s1,
    delete_video cfg req filename now s =
      (Ok (json 200 (MessageBody "Video deleted successfully")), s1) ∧
    delete_video cfg req filename now' s1 =
      (Ok (json 404 (ErrorBody "Video not found")), s1).
Proof.
  intros Hp Hne Hclash Hwf Hsome. set (k := safe_email e) in *.
  assert (is_name filename = true) as Hname.
  { destruct Hsome as [x Hx]. by eapply wf_store_file. }
  pose proof (ensured_is_dir now s k Hclash) as Hdir.
  assert (is_dir (drop_file (ensured now s k) k filename) k) as Hdir'
    by by apply drop_file_is_dir.
  eexists. split.
  { rewrite (delete_video_name cfg req e) by done. fold k.
    by rewrite bool_decide_eq_true_2. }
  rewrite (delete_video_name cfg req e); [|done|done|by apply is_dir_no_clash|done].
  fold k. rewrite drop_file_partition, lookup_delete_eq.
  rewrite bool_decide_eq_false_2 by by intros [? ?].
  by rewrite (ensured_id now') by (destruct Hdir' as (m & es & ->); eauto).
Qed.

Lemma delete_twice_not_found_witness :
  let req := request_with "alice-token" None in
  is_Some (partition (alice_store noon) (safe_email "alice@example.com") !! "old.mp4") ∧
  ∃ s1,
    delete_video provider_cfg req "old.mp4" noon (alice_store noon) =
      (Ok (json 200 (MessageBody "Video deleted successfully")), s1) ∧
    delete_video provider_cfg req "old.mp4" (noon + 5) s1 =
      (Ok (json 404 (ErrorBody "Video not found")), s1).
Proof.
  intros req.
  assert (is_Some (partition (alice_store noon) (safe_email "alice@example.com")
                     !! "old.mp4")) as Hsome.
  { change (safe_email "alice@example.com") with "alice_example_com".
    unfold partition, alice_store. rewrite lookup_insert_eq, lookup_insert_eq. eauto. }
  split; [exact Hsome|].
  apply (delete_twice_not_found provider_cfg req "alice@example.com").
  - reflexivity.
  - discriminate.
  - apply alice_store_no_clash.
  - apply alice_store_wf.
  - exact Hsome.
Defined.

(** X15: a delete request whose file name is [.] is answered with 200 and
    removes the caller's whole partition, with every video in it: the path
    joined from the partition directory and [.] is the partition directory
    itself, and the route checks only that the path exists. *)
Theorem delete_dot_removes_partition cfg req e now s :
  principal cfg req = Some e → e ≠ "" → no_clash s (safe_email e) →
  delete_video cfg req "." now s =
    (Ok (json 200 (MessageBody "Video deleted successfully")), delete (safe_email e) s).
Proof.
  intros (user & Hauth & He)%principal_next Hne Hclash.
  set (k := safe_email e). pose proof (safe_email_name e Hne) as Hk.
  destruct (ensured_lookup now s k Hclash) as (m & Hdir).
  unfold delete_video, authenticated. rewrite Hauth.
  rewrite run_bind, (user_email_run _ _ _ _ He).
  rewrite run_bind, getUserDirectory_ok by done. fold k.
  rewrite run_bind, join_partition_dot by done.
  unfold Fs.existsSync. rewrite locate_partition by done.
  unfold Fs.lookup_stats. rewrite Hdir.
  change (false && _) with false. cbv iota.
  rewrite bool_decide_eq_true_2 by eauto.
  change (negb true) with false. cbv iota.
  rewrite run_bind. unfold try, Fs.remove. rewrite locate_partition by done.
  unfold Fs.lookup_stats. rewrite Hdir.
  change (false && _) with false. cbv iota.
  rewrite run_ret. f_equal.
  unfold ensured. destruct (s !! k); [done|]. by rewrite delete_insert_eq.
Qed.

Lemma delete_dot_removes_partition_witness :
  delete_video provider_cfg (request_with "alice-token" None) "." noon (alice_store noon) =
    (Ok (json 200 (MessageBody "Video deleted successfully")),
     delete (safe_email "alice@example.com") (alice_store noon)).
Proof.
  apply (delete_dot_removes_partition provider_cfg _ "alice@example.com").
  - reflexivity.
  - discriminate.
  - apply alice_store_no_clash.
Defined.

(** X16: what one user's upload, catalog read, or delete of a file name
    does, it does inside that user's partition: every other entry of
    [uploads] is afterwards what it was before. *)
Theorem other_partitions_untouched cfg req e filename now s k' :
  principal cfg req = Some e → e ≠ "" → no_clash s (safe_email e) → wf_store s →
  is_name filename = true → k' ≠ safe_email e →
  (post_upload cfg req now s).2 !! k' = s !! k' ∧
  (get_videos cfg req now s).2 !! k' = s !! k' ∧
  (delete_video cfg req filename now s).2 !! k' = s !! k'.
Proof.
  intros Hp Hne Hclash Hwf Hname Hk'.
  split; [by apply (post_upload_other cfg req e)|]. split.
  - rewrite (get_videos_run cfg req e) by done. cbn [snd]. by rewrite ensured_other.
  - rewrite (delete_video_name cfg req e) by done.
    destruct (bool_decide _); cbn [snd].
    + by rewrite drop_file_other, ensured_other.
    + by rewrite ensured_other.
Qed.

Lemma other_partitions_untouched_witness :
  let part := video_part "holiday.mp4" "video/mp4" 1000 in
  let req := request_with "bob-token" (Some part) in
  (post_upload provider_cfg req noon (alice_store noon)).2 !! "alice_example_com" =
    alice_store noon !! "alice_example_com" ∧
  (get_videos provider_cfg req noon (alice_store noon)).2 !! "alice_example_com" =
    alice_store noon !! "alice_example_com" ∧
  (delete_video provider_cfg req "old.mp4" noon (alice_store noon)).2
    !! "alice_example_com" = alice_store noon !! "alice_example_com".
Proof.
  intros part req.
  apply (other_partitions_untouched provider_cfg req "bob@example.com").
  - reflexivity.
  - discriminate.
  - intros m. change (safe_email "bob@example.com") with "bob_example_com".
    unfold alice_store. rewrite lookup_insert_ne by discriminate.
    rewrite lookup_singleton_ne by discriminate. discriminate.
  - apply alice_store_wf.
  - reflexivity.
  - discriminate.
Defined.

(** ** Retention, the catalog and the share page together *)

Section catalog_entries.

(** What the catalog of a principal lists, entry by entry. *)
Lemma catalog_entry cfg req e now s :
  principal cfg req = Some e → e ≠ "" → no_clash s (safe_email e) → wf_store s →
  ∃ videos,
    get_videos cfg req now s =
      (Ok (json 200 (VideosBody videos)), ensured now s (safe_email e)) ∧
    ∀ v, v ∈ videos ↔
      ∃ f m, partition s (safe_email e) !! f = Some m ∧ listed f ∧
             v = summary cfg req (safe_email e) (f, m).
Proof.
  intros Hp Hne Hclash Hwf. eexists. split; [by apply (get_videos_run cfg req e)|].
  intros v. rewrite sort_by_perm, list_elem_of_fmap. split.
  - intros ([f m] & -> & [Hl Hin%elem_of_map_to_list]%list_elem_of_filter). eauto.
  - intros (f & m & Hf & Hl & ->). exists (f, m). split; [done|].
    apply list_elem_of_filter. split; [done|]. by apply elem_of_map_to_list.
Qed.

End catalog_entries.



(** X18: a run of the cleanup job followed by a later run leaves what the
    later run alone would have left: a run that was missed, or an extra
    one, changes nothing in the long run. *)
Theorem cleanup_runs_compose now1 now2 s :
  wf_store s → now1 ≤ now2 →
  cleanup now2 (cleanup now1 s).2 = cleanup now2 s.
Proof.
  intros Hwf Hle. rewrite (cleanup_run now1) by done. cbn [snd].
  rewrite !cleanup_run by (try apply wf_store_sweep; done).
  by rewrite sweep_compose.
Qed.

Lemma cleanup_runs_compose_witness :
  cleanup (noon + 3600000) (cleanup noon (alice_store noon)).2 =
    cleanup (noon + 3600000) (alice_store noon).
Proof.
  apply cleanup_runs_compose; [apply alice_store_wf|]. vm_compute. discriminate.
Defined.

(** X19: after the cleanup job has run at [now], the catalog of a
    principal shows no video uploaded more than 24 hours before [now]. *)
Theorem catalog_after_cleanup cfg req e now now' s :
  principal cfg req = Some e → e ≠ "" → no_clash s (safe_email e) → wf_store s →
  ∃ videos s2,
    get_videos cfg req now' (cleanup now s).2 = (Ok (json 200 (VideosBody videos)), s2) ∧
    ∀ v, v ∈ videos → now - retention_window ≤ uploadTime v.
Proof.
  intros Hp Hne Hclash Hwf. rewrite cleanup_run by done. cbn [snd].
  destruct (catalog_entry cfg req e now' (sweep now s) Hp Hne) as (videos & Hrun & Hin).
  { by apply no_clash_sweep. }
  { by apply wf_store_sweep. }
  exists videos. eexists. split; [exact Hrun|].
  intros v (f & m & Hf & _ & ->)%Hin.
  rewrite partition_sweep in Hf. apply map_lookup_filter_Some in Hf as [_ Hm].
  unfold expired in Hm. cbn in *. lia.
Qed.

Lemma catalog_after_cleanup_witness :
  ∃ videos s2,
    get_videos provider_cfg (request_with "alice-token" None) (noon + 5)
      (cleanup noon (alice_store noon)).2 = (Ok (json 200 (VideosBody videos)), s2) ∧
    ∀ v, v ∈ videos → noon - retention_window ≤ uploadTime v.
Proof.
  apply (catalog_after_cleanup provider_cfg _ "alice@example.com").
  - reflexivity.
  - discriminate.
  - apply alice_store_no_clash.
  - apply alice_store_wf.
Defined.

(** X20: every entry of a catalog has a share page: the share route,
    asked under the same base URL for the caller's key and the entry's file
    name, answers 200 with a page whose [og:video] tag holds the entry's
    [videoUrl]; and the entry's [shareUrl] is the address of that page. *)
Theorem catalog_entries_have_share_pages cfg req req' e now now' s :
  principal cfg req = Some e → e ≠ "" → no_clash s (safe_email e) → wf_store s →
  getBaseUrl cfg req' = getBaseUrl cfg req →
  ∃ videos s1,
    get_videos cfg req now s = (Ok (json 200 (VideosBody videos)), s1) ∧
    ∀ v, v ∈ videos →
      shareUrl v = getBaseUrl cfg req +:+ "/share/" +:+ safe_email e +:+ "/" +:+
                   v_filename v ∧
      ∃ html,
        get_share cfg req' (safe_email e) (v_filename v) now' s1 =
          (Ok {| status := 200; content := SendBody html |}, s1) ∧
        contains html (og_video (videoUrl v)).
Proof.
  intros Hp Hne Hclash Hwf Hbase.
  destruct (catalog_entry cfg req e now s Hp Hne Hclash Hwf) as (videos & Hrun & Hin).
  pose proof (safe_email_name e Hne) as Hk.
  exists videos. eexists. split; [exact Hrun|].
  intros v (f & m & Hf & _ & ->)%Hin. split; [done|].
  pose proof (wf_store_file _ _ _ _ Hwf Hf) as Hname.
  eexists. cbn [v_filename videoUrl summary fst].
  rewrite get_share_run by by rewrite share_path_names, locate_entry.
  rewrite bool_decide_eq_true_2; cycle 1.
  { apply on_disk_names; [done..|]. rewrite partition_ensured, Hf. eauto. }
  split; [done|]. unfold direct_url. rewrite Hbase. apply share_html_og_video.
Qed.

Lemma catalog_entries_have_share_pages_witness :
  let req := request_with "alice-token" None in
  ∃ videos s1,
    get_videos provider_cfg req noon (alice_store noon) =
      (Ok (json 200 (VideosBody videos)), s1) ∧
    ∀ v, v ∈ videos →
      ∃ html,
        get_share provider_cfg (request_with "" None) (safe_email "alice@example.com")
          (v_filename v) (noon + 5) s1 =
          (Ok {| status := 200; content := SendBody html |}, s1) ∧
        contains html (og_video (videoUrl v)).
Proof.
  intros req.
  destruct (catalog_entries_have_share_pages provider_cfg req (request_with "" None)
              "alice@example.com" noon (noon + 5) (alice_store noon))
    as (videos & s1 & Hrun & Hall).
  - reflexivity.
  - discriminate.
  - apply alice_store_no_clash.
  - apply alice_store_wf.
  - reflexivity.
  - exists videos, s1. split; [exact Hrun|]. intros v Hv. exact (proj2 (Hall v Hv)).
Defined.

(** X21: reading the catalog changes no partition's content, and a second
    read (with no upload, delete or cleanup between the two) gives the same
    reply as the first. *)
Theorem catalog_read_repeatable cfg req e now now' s :
  principal cfg req = Some e → e ≠ "" → no_clash s (safe_email e) → wf_store s →
  ∃ r s1,
    get_videos cfg req now s = (Ok r, s1) ∧
    get_videos cfg req now' s1 = (Ok r, s1) ∧
    ∀ k, partition s1 k = partition s k.
Proof.
  intros Hp Hne Hclash Hwf. set (k := safe_email e).
  pose proof (ensured_is_dir now s k Hclash) as Hdir.
  do 2 eexists. split; [by apply (get_videos_run cfg req e)|]. fold k.
  split; [|intros k'; apply partition_ensured].
  rewrite (get_videos_run cfg req e);
    [|done|done|by apply is_dir_no_clash|by apply wf_store_ensured; [apply safe_email_name|]].
  fold k. rewrite partition_ensured.
  by rewrite (ensured_id now') by (destruct Hdir as (m & es & ->); eauto).
Qed.

Lemma catalog_read_repeatable_witness :
  let req := request_with "bob-token" None in
  ∃ r s1,
    get_videos provider_cfg req noon (alice_store noon) = (Ok r, s1) ∧
    get_videos provider_cfg req (noon + 5) s1 = (Ok r, s1) ∧
    ∀ k, partition s1 k = partition (alice_store noon) k.
Proof.
  intros req. apply (catalog_read_repeatable provider_cfg req "bob@example.com").
  - reflexivity.
  - discriminate.
  - intros m. change (safe_email "bob@example.com") with "bob_example_com".
    unfold alice_store. rewrite lookup_insert_ne by discriminate.
    rewrite lookup_singleton_ne by discriminate. discriminate.
  - apply alice_store_wf.
Defined.

(** ** The client's check and the server's filter *)

Section client_check.

Lemma endsWith_spec (suffix s : string) :
  Client.endsWith suffix s = true ↔ ∃ pre, s = pre +:+ suffix.
Proof.
  induction s as [|c s IH]; cbn [Client.endsWith].
  - rewrite orb_false_r, bool_decide_eq_true. split.
    + intros ->. by exists "".
    + intros (pre & H). destruct pre; [done|discriminate].
  - rewrite orb_true_iff, bool_decide_eq_true, IH. split.
    + intros [<-|(pre & ->)]; [by exists ""|]. by exists (String c pre).
    + intros ([|c' pre] & H); [by left|]. right. exists pre.
      rewrite sapp_cons in H. by injection H.
Qed.




(** An extension [path.extname] gives for a plain name ends that name. *)
Lemma extname_ends (p : string) :
  no_sep Js.slash p = true → Path.extname p ≠ "" →
  Client.endsWith (Path.extname p) p = true.
Proof.
  intros Hslash Hext. assert (p ≠ "") as Hp by by intros ->.
  apply endsWith_spec. unfold Path.extname in *.
  rewrite basename_plain in * by done.
  destruct (Path.from_last_dot p) as [e|] eqn:He; [|done].
  destruct (bool_decide (e = p) || bool_decide (p = "..")); [done|].
  apply from_last_dot_suffix in He as (pre & r & -> & _). eauto.
Qed.

Lemma lower_char_slash (c : ascii) :
  negb (bool_decide (Js.lower_char c = Js.slash)) = negb (bool_decide (c = Js.slash)).
Proof. destruct c as [[] [] [] [] [] [] [] []]; reflexivity. Qed.

Lemma toLowerCase_no_slash (s : string) :
  no_sep Js.slash (Js.toLowerCase s) = no_sep Js.slash s.
Proof.
  unfold no_sep, Js.toLowerCase. induction s as [|c s IH]; [done|].
  cbn [Js.map_chars Js.all_chars]. by rewrite IH, lower_char_slash.
Qed.


Lemma client_extensions : Client.allowedExtensions = allowedExtensions.
Proof. reflexivity. Qed.

Lemma existsb_endsWith (fileName : string) :
  existsb (λ ext, Client.endsWith ext fileName) Client.allowedExtensions = true ↔
  ∃ ext, ext ∈ allowedExtensions ∧ Client.endsWith ext fileName = true.
Proof.
  rewrite existsb_exists, client_extensions. split.
  - intros (ext & Hin%list_elem_of_In & H). eauto.
  - intros (ext & Hin%list_elem_of_In & H). eauto.
Qed.

Lemma client_mime_is_video (t : string) :
  Js.includes Client.allowedMimeTypes t = true → Js.startsWith "video/" t = true.
Proof.
  intros H%includes_true. unfold Client.allowedMimeTypes in H.
  rewrite !elem_of_cons, elem_of_nil in H.
  repeat destruct H as [->|H]; done.
Qed.

(** The type the server sees of a file whose type starts with [video/] is
    that type. *)
Lemma form_part_video (f : Client.File) :
  Js.startsWith "video/" (mimetype (Client.form_part f)) =
    Js.startsWith "video/" (Client.type f).
Proof.
  cbn [Client.form_part mimetype]. destruct (bool_decide_reflect (Client.type f = "")) as [->|]; done.
Qed.

(** What the client's check lets through, in terms of the file. *)
Lemma validateVideoFile_valid (f : Client.File) :
  Client.validateVideoFile f = Client.Valid ↔
  Client.size f ≤ Client.maxSize ∧
  ((∃ ext, ext ∈ allowedExtensions ∧
           Client.endsWith ext (Js.toLowerCase (Client.name f)) = true) ∨
   Js.startsWith "video/" (Client.type f) = true).
Proof.
  unfold Client.validateVideoFile.
  destruct (Z.ltb_spec Client.maxSize (Client.size f)) as [Hgt|Hle].
  { split; [done|]. intros [? _]. lia. }
  destruct (existsb _ _) eqn:Hext.
  { rewrite orb_true_l. split; [|done]. intros _. split; [done|]. left.
    by apply existsb_endsWith. }
  rewrite orb_false_l.
  destruct (Js.includes _ _ || Js.startsWith _ _) eqn:Hmime.
  - split; [|done]. intros _. split; [done|]. right.
    apply orb_true_iff in Hmime as [H|H]; [by apply client_mime_is_video|done].
  - split; [done|]. intros [_ [H|H]].
    + apply existsb_endsWith in H. congruence.
    + apply orb_false_iff in Hmime as [_ Hmime]. congruence.
Qed.

End client_check.

(** X22: the client's check never stops a file the server would take: a
    file of at most 500 MiB with a plain name whose form part passes the
    server's file filter passes the client's check. *)
Theorem accepted_by_server_passes_client (f : Client.File) :
  Client.size f ≤ Client.maxSize → no_sep Js.slash (Client.name f) = true →
  videoFileFilter (Client.form_part f) = Accept →
  Client.validateVideoFile f = Client.Valid.
Proof.
  intros Hsize Hslash Hacc%filter_accepts. apply validateVideoFile_valid.
  split; [done|].
  assert (extension_of (Client.form_part f) ∈ allowedExtensions →
          ∃ ext, ext ∈ allowedExtensions ∧
                 Client.endsWith ext (Js.toLowerCase (Client.name f)) = true) as Hext.
  { intros Hin. eexists. split; [exact Hin|]. apply extname_ends.
    - by rewrite toLowerCase_no_slash.
    - intros Hnil. unfold extension_of in Hin. cbn [Client.form_part originalname] in Hin.
      rewrite Hnil in Hin. by apply (bool_decide_eq_false_1 _) in Hin. }
  destruct Hacc as [Hin|[Hv|[_ Hin]]]; [left; by apply Hext| |left; by apply Hext].
  right. by rewrite <-form_part_video.
Qed.

Lemma accepted_by_server_passes_client_witness :
  Client.validateVideoFile
    {| Client.name := "Holiday.MOV"; Client.type := ""; Client.size := 1000 |} =
    Client.Valid.
Proof.
  apply accepted_by_server_passes_client.
  - vm_compute. discriminate.
  - reflexivity.
  - reflexivity.
Defined.



(** X24: the two checks differ on a file whose name is nothing but an
    allow-listed extension (such as [.mp4]) and whose type does not start
    with [video/]: the client lets it through, because the name ends with
    the extension, and the upload route refuses it with 400, because
    [path.extname] finds no extension in such a name; nothing is stored. *)
Theorem bare_extension_passes_client_only cfg req e f now s :
  principal cfg req = Some e → file req = Some (Client.form_part f) →
  Js.toLowerCase (Client.name f) ∈ allowedExtensions →
  Js.startsWith "video/" (Client.type f) = false → Client.size f ≤ Client.maxSize →
  Client.validateVideoFile f = Client.Valid ∧
  post_upload cfg req now s =
    (Ok (json 400 (ErrorBody
       ("Only video files are allowed. Detected type: " +:+
        mimetype (Client.form_part f) +:+ ", extension: "))), s).
Proof.
  intros Hp Hfile Hbare Hv Hsize. split.
  { apply validateVideoFile_valid. split; [done|]. left.
    eexists. split; [exact Hbare|]. apply endsWith_spec. by exists "". }
  assert (Client.name f ≠ "") as Hname.
  { intros Hnil. rewrite Hnil in Hbare. by apply (bool_decide_eq_false_1 _) in Hbare. }
  assert (extension_of (Client.form_part f) = "") as Hext.
  { unfold extension_of. cbn [Client.form_part originalname].
    remember (Js.toLowerCase (Client.name f)) as x eqn:Hx. clear Hx.
    unfold allowedExtensions in Hbare. rewrite !elem_of_cons, elem_of_nil in Hbare.
    repeat destruct Hbare as [->|Hbare]; done. }
  rewrite (post_upload_rejected cfg req e (Client.form_part f)); [by rewrite Hext|done|done|].
  intros [Hin|[Hvideo|[_ Hin]]].
  - rewrite Hext in Hin. by apply (bool_decide_eq_false_1 _) in Hin.
  - rewrite form_part_video in Hvideo. congruence.
  - rewrite Hext in Hin. by apply (bool_decide_eq_false_1 _) in Hin.
Qed.

Lemma bare_extension_passes_client_only_witness :
  let f := {| Client.name := ".MP4"; Client.type := ""; Client.size := 1000 |} in
  let req := request_with "alice-token" (Some (Client.form_part f)) in
  Client.validateVideoFile f = Client.Valid ∧
  post_upload provider_cfg req noon ∅ =
    (Ok (json 400 (ErrorBody
       "Only video files are allowed. Detected type: application/octet-stream, extension: ")),
     ∅).
Proof.
  intros f req.
  apply (bare_extension_passes_client_only provider_cfg req "alice@example.com" f).
  - reflexivity.
  - reflexivity.
  - apply (bool_decide_eq_true_1 _). reflexivity.
  - reflexivity.
  - vm_compute. discriminate.
Defined.

(** ** The order of the catalog, and the page of a stored name *)

Section catalog_order.

Context {A : Type} (key : A → Z).



End catalog_order.

Section page_title.

Lemma title_end :
  q "</title>
    
    <!-- Open Graph Meta Tags for Facebook, LinkedIn, etc. -->
    <meta property=^og:title^ content=^Shared Video - " =
  "</title>" +:+ q "
    
    <!-- Open Graph Meta Tags for Facebook, LinkedIn, etc. -->
    <meta property=^og:title^ content=^Shared Video - ".
Proof. reflexivity. Qed.

(** The title element of the share page ends with the file name as it
    is. *)
Lemma share_html_title filename shareUrl videoUrl :
  contains (share_html filename shareUrl videoUrl) (filename +:+ "</title>").
Proof.
  unfold share_html. apply contains_skip.
  rewrite title_end, sapp_assoc, <-(sapp_assoc filename). apply contains_prefix.
Qed.

Lemma contains_trans (a b c : string) : contains a b → contains b c → contains a c.
Proof.
  intros (p1 & q1 & ->) (p2 & q2 & ->). exists (p1 +:+ p2), (q2 +:+ q1).
  by rewrite !sapp_assoc.
Qed.

End page_title.



(** X26: the share page shows the name of a stored file as it is: after an
    upload, the page of the stored file has the extension of the original
    file name, whatever characters it is made of, right before the end of
    its [title] element. *)
Theorem share_page_shows_extension_verbatim cfg req req' e part now now' s :
  principal cfg req = Some e → e ≠ "" → no_clash s (safe_email e) → wf_store s →
  carries_video req part → videoFileFilter part = Accept → bytes part < ceiling →
  ∃ r s' html,
    post_upload cfg req now s = (Ok r, s') ∧ status r = 200 ∧
    get_share cfg req' (safe_email e) (stored_name now part) now' s' =
      (Ok {| status := 200; content := SendBody html |}, s') ∧
    contains html (Path.extname (originalname part) +:+ "</title>").
Proof.
  intros Hp Hne Hclash Hwf Hc Hf Hsize.
  destruct (post_upload_stored cfg req e part now s Hp Hne Hclash Hwf Hc Hf Hsize)
    as (Hrun & Hdir & Hwf' & Hpart & Hens).
  pose proof (safe_email_name e Hne) as Hk.
  pose proof (stored_name_is_name now part) as Hn.
  do 3 eexists. split; [exact Hrun|]. split; [done|].
  rewrite get_share_run by by rewrite share_path_names, locate_entry.
  rewrite bool_decide_eq_true_2; cycle 1.
  { apply on_disk_names; [done..|]. rewrite Hpart, lookup_insert_eq. eauto. }
  split; [done|].
  eapply contains_trans; [apply share_html_title|].
  exists (replace_unsafe (Date.toISOString now)), "".
  unfold stored_name. by rewrite sapp_nil_r, sapp_assoc.
Qed.

Lemma share_page_shows_extension_verbatim_witness :
  let part := video_part "clip.<b>" "video/mp4" 1000 in
  let req := request_with "alice-token" (Some part) in
  bytes part < ceiling ∧
  ∃ s' html,
    (post_upload provider_cfg req noon ∅).2 = s' ∧
    get_share provider_cfg (request_with "" None) (safe_email "alice@example.com")
      (stored_name noon part) (noon + 5) s' =
      (Ok {| status := 200; content := SendBody html |}, s') ∧
    contains html ".<b></title>".
Proof.
  intros part req. split; [reflexivity|].
  destruct (share_page_shows_extension_verbatim provider_cfg req (request_with "" None)
              "alice@example.com" part noon (noon + 5) ∅)
    as (r & s' & html & Hrun & _ & Hshare & Hin).
  - reflexivity.
  - discriminate.
  - apply empty_no_clash.
  - apply map_Forall_empty.
  - repeat split; discriminate.
  - reflexivity.
  - reflexivity.
  - exists s', html. rewrite Hrun. split; [reflexivity|]. split; [exact Hshare|exact Hin].
Defined.
